(** * PullWeights MCP server: a shallow embedding of the TypeScript tools

    The development follows the three source files of the repository:
    - [types.ts]  : the records exchanged with the registry;
    - [client.ts] : [PullWeightsClient], the HTTP facade;
    - [index.ts]  : [parseModelRef] and the tools [ls], [tags], [update],
                    [pull] and [push].

    Effects are explicit.  A computation of the tool layer is a function
    from a [State] (the log of every effect performed so far, and the
    contents of the disk) to a result or a thrown [Error] together with the
    state reached.  Everything the program cannot decide by itself (the
    answers of the network, whether the file system accepts a write or
    the creation of a directory, the hash function, the path functions
    of node) is a field of the class [Platform]. *)

From Stdlib Require Import Ascii.
From stdpp Require Import base strings list gmap pretty.

Open Scope string_scope.
Open Scope list_scope.

(** ** JavaScript strings

    The program only splits strings at the ASCII characters [":"] and
    ["/"], so a string is modelled as a sequence of bytes. *)

Module JsString.

(** [s.split(c)] for a separator of one character: the pieces between the
    occurrences of [c], in order; never an empty array. *)
Fixpoint split (sep : ascii) (s : string) : list string :=
  match s with
  | EmptyString => [EmptyString]
  | String c rest =>
      if Ascii.eqb c sep then EmptyString :: split sep rest
      else match split sep rest with
           | [] => [String c EmptyString]
           | piece :: pieces => String c piece :: pieces
           end
  end.

(** [s.includes(c)] for a string [c] of one character. *)
Fixpoint includes (c : ascii) (s : string) : bool :=
  match s with
  | EmptyString => false
  | String d rest => Ascii.eqb d c || includes c rest
  end.

(** [!s]: the empty string is the only falsy string. *)
Definition falsy (s : string) : bool :=
  match s with EmptyString => true | String _ _ => false end.

(** [a || b] on strings. *)
Definition or_else (a b : string) : string := if falsy a then b else a.

(** [arr.pop()]: the last element of an array, [undefined] on [[]]. *)
Definition pop (arr : list string) : option string := last arr.

(** [arr.join(sep)]. *)
Fixpoint join (sep : string) (arr : list string) : string :=
  match arr with
  | [] => EmptyString
  | [a] => a
  | a :: rest => a +:+ sep +:+ join sep rest
  end.

(** Number of occurrences of a character. *)
Fixpoint count_char (c : ascii) (s : string) : nat :=
  match s with
  | EmptyString => 0
  | String d rest => (if Ascii.eqb d c then 1 else 0) + count_char c rest
  end.

(** The part of [s] in front of the first occurrence of [c] (all of [s]
    when [c] does not occur). *)
Fixpoint before_first (c : ascii) (s : string) : string :=
  match s with
  | EmptyString => EmptyString
  | String d rest => if Ascii.eqb d c then EmptyString else String d (before_first c rest)
  end.

(** [needle] occurs in [hay] as a contiguous run of characters. *)
Definition occurs_in (needle hay : string) : Prop :=
  ∃ pre post, hay = pre +:+ needle +:+ post.

End JsString.

Import JsString.

(** ** Errors thrown by the program

    Every [throw new Error(...)] of the source is a constructor that keeps
    the values interpolated into the message; [message] renders it.  The
    last four constructors are failures raised by the runtime itself. *)

Inductive Error : Type :=
  | InvalidModelRef (ref : string)          (* parseModelRef *)
  | InvalidOrgModel (ref : string)          (* tags, update *)
  | ExplicitTagRequired                     (* push *)
  | AuthenticationRequired                  (* requireAuth *)
  | RequestFailed (status : N) (msg : string) (* request *)
  | DownloadFailed (filename : string) (status : N)
  | ChecksumMismatch (filename expected actual : string)
  | NoLocalFile (filename : string)
  | S3UploadFailed (status : N) (statusText : string)
  | FetchRejected (url : string)            (* fetch() rejects *)
  | JsonSyntaxError                         (* res.json() rejects *)
  | TypeError                               (* a value of the wrong shape *)
  | IoError (path : string).                (* a file-system call rejects *)

(** The double quote character used inside the messages. *)
Definition dquote : string := String (ascii_of_nat 34) EmptyString.

Definition message (e : Error) : string :=
  match e with
  | InvalidModelRef ref =>
      "Invalid model reference " +:+ dquote +:+ ref +:+ dquote
        +:+ ". Expected format: org/model or org/model:tag"
  | InvalidOrgModel ref =>
      "Invalid model reference " +:+ dquote +:+ ref +:+ dquote
        +:+ ". Expected format: org/model"
  | ExplicitTagRequired =>
      "Push requires an explicit tag. Use org/model:tag format."
  | AuthenticationRequired =>
      "Authentication required. Set the PULLWEIGHTS_API_KEY environment variable. "
        +:+ "Get your API key at https://pullweights.com/dashboard/api-keys"
  | RequestFailed status msg => pretty status +:+ ": " +:+ msg
  | DownloadFailed filename status =>
      "Failed to download " +:+ filename +:+ ": " +:+ pretty status
  | ChecksumMismatch filename expected actual =>
      "Checksum mismatch for " +:+ filename +:+ ": expected " +:+ expected
        +:+ ", got " +:+ actual
  | NoLocalFile filename => "No local file found for " +:+ filename
  | S3UploadFailed status statusText =>
      "S3 upload failed: " +:+ pretty status +:+ " " +:+ statusText
  | FetchRejected url => "fetch failed"
  | JsonSyntaxError => "Unexpected token in JSON"
  | TypeError => "Cannot read properties of undefined"
  | IoError path => "ENOENT: no such file or directory, open '" +:+ path +:+ "'"
  end.                          (* node's wording for a missing path *)

Inductive Result (A : Type) : Type :=
  | Ok (a : A)
  | Err (e : Error).
Arguments Ok {A} a.
Arguments Err {A} e.

(** ** index.ts: model references *)

Record ModelRef : Type := mkModelRef { org : string; model : string; tag : string }.

(** [function parseModelRef(ref)] *)
Definition parseModelRef (ref : string) : Result ModelRef :=
  match split ":" ref with
  | [] => Err TypeError
  | modelPart :: more =>
      let tag := match more with [] => "latest" | t :: _ => t end in
      match split "/" modelPart with
      | [p0; p1] =>
          if falsy p0 || falsy p1 then Err (InvalidModelRef ref)
          else Ok {| org := p0; model := p1; tag := tag |}
      | _ => Err (InvalidModelRef ref)
      end
  end.

(** ** types.ts: the records of the registry API

    Sizes, counts and HTTP status codes are natural numbers; a field of
    type [T | null] is an [option]. *)

Definition Buffer : Type := list Byte.byte.

Record SearchResult : Type := {
  sr_id : string; sr_org : string; sr_name : string;
  sr_description : option string; sr_framework : option string;
  sr_download_count : N; sr_visibility : string;
  sr_created_at : string; sr_updated_at : string }.

Record SearchResponse : Type := {
  results : list SearchResult; total : N; page : N; per_page : N }.

Record ModelSummary : Type := {
  ms_id : string; ms_org : string; ms_name : string;
  ms_description : option string; ms_visibility : string;
  ms_framework : option string; ms_license : option string;
  ms_tags : list string; ms_download_count : N;
  ms_x402_price_usd : option string;
  ms_created_at : string; ms_updated_at : string }.

Record OrgSummary : Type := {
  os_id : string; os_name : string; os_display_name : option string;
  os_description : option string; os_is_personal : bool;
  os_member_count : N; os_model_count : N; os_role : string;
  os_created_at : string }.

Record ManifestFile : Type := {
  mf_filename : string; mf_size_bytes : N; mf_sha256 : string;
  mf_content_type : option string }.

Record Manifest : Type := {
  m_schema_version : N; m_name : string; m_org : string; m_tag : string;
  m_description : option string; m_framework : option string;
  m_architecture : option string; m_license : option string;
  m_files : list ManifestFile; m_metadata : gmap string string;
  m_created_at : string }.

Record TagInfo : Type := {
  ti_tag : string; ti_version_id : string; ti_total_size_bytes : N;
  ti_sha256_digest : string; ti_pushed_by : string; ti_created_at : string }.

Record PullFile : Type := {
  filename : string; download_url : string; sha256_hex : string;
  size_bytes : N }.

Record PullResponse : Type := {
  pr_org : string; pr_model : string; pr_tag : string;
  pr_version_id : string; pr_sha256_digest : string;
  pr_total_size_bytes : N; pr_files : list PullFile }.

Record PushInitUpload : Type := {
  up_filename : string; s3_key : string; upload_url : string }.

Record PushInitResponse : Type := {
  push_id : string; uploads : list PushInitUpload }.

Record PushFinalizeFile : Type := {
  ff_filename : string; ff_size_bytes : N; ff_sha256 : string }.

Record PushFinalizeResponse : Type := {
  fr_version_id : string; fr_tag : string; fr_total_size_bytes : N;
  fr_sha256_digest : string; fr_files : list PushFinalizeFile }.

(** The answer of the missing [updateModel] endpoint, of which [update]
    reads the field [message]. *)
Record UpdateResponse : Type := { ur_message : string }.

(** A parsed JSON body, by shape.  [JError] is an object with a field
    [error] ([ApiError]); [JMessage] an object without it, with an
    optional field [message]. *)
Inductive Json : Type :=
  | JError (error : string)
  | JMessage (msg : option string)
  | JSearch (r : SearchResponse)
  | JModels (l : list ModelSummary)
  | JOrgs (l : list OrgSummary)
  | JManifest (m : Manifest)
  | JTags (l : list TagInfo)
  | JPull (r : PullResponse)
  | JPushInit (r : PushInitResponse)
  | JPushFinalize (r : PushFinalizeResponse).

(** ** The requests the program sends *)

(** One descriptor of the [files] array of the init body. *)
Record FileDescriptor : Type := {
  fd_filename : string; fd_size_bytes : N; fd_sha256 : string }.

(** The body of [pushInit]; an absent optional key is [None]. *)
Record PushInitBody : Type := {
  ib_tag : string; ib_type : option string; ib_description : option string;
  ib_visibility : option string; ib_files : list FileDescriptor }.

Record PushFinalizeBody : Type := { fb_push_id : string; fb_tag : string }.

(** What is passed as [body] to [fetch]: [JSON.stringify] of one of the
    two bodies above (kept structured), or raw bytes. *)
Inductive RequestBody : Type :=
  | InitJson (b : PushInitBody)
  | FinalizeJson (b : PushFinalizeBody)
  | Raw (data : Buffer).

(** The second argument of [fetch]. *)
Record RequestInit : Type := {
  method : option string;
  headers : gmap string string;
  body : option RequestBody;
  redirect : option string }.

(** What [fetch] resolves to: [res.ok] is derived from the status as the
    Fetch standard defines it; [res_bytes] is what [res.arrayBuffer()]
    resolves to, and [res_json] what [res.json()] does, [None] when it
    rejects. *)
Record Response : Type := {
  status : N; statusText : string;
  res_bytes : Buffer; res_json : option Json }.

Definition ok (res : Response) : bool :=
  (200 <=? status res)%N && (status res <=? 299)%N.

Inductive FetchResult : Type :=
  | Rejects
  | Resolves (res : Response).

(** ** Effects *)

(** The calls made on the outside world, whether they succeed or not. *)
Inductive Event : Type :=
  | Fetch (url : string) (init : RequestInit)
  | Mkdir (path : string)
  | WriteFile (path : string) (data : Buffer)
  | ReadFile (path : string)
  | Stat (path : string).

(** What becomes of a call of [writeFile]: the file holds the data, or the
    call rejects, leaving the path as it was ([None]) or with other
    content, such as a truncated file ([Some]). *)
Inductive WriteOutcome : Type :=
  | Written
  | NotWritten (left : option Buffer).

(** What lies outside the program.  The network answers a request
    knowing everything that happened before it; the file system decides
    on a [mkdir] and on a [writeFile] knowing that and the files it
    holds. *)
Class Platform : Type := {
  mkdir_succeeds : list Event → gmap string Buffer → string → bool;
  writeFile_outcome : list Event → gmap string Buffer → string → Buffer → WriteOutcome;
  sha256_digest_hex : Buffer → string;
  encodeURIComponent : string → string;
  URLSearchParams_toString : list (string * string) → string;
  path_join : string → string → string;
  path_resolve : list string → string;
  formatBytes : N → string;
  network : list Event → string → RequestInit → FetchResult;
  PULLWEIGHTS_API_URL : option string;
  PULLWEIGHTS_API_KEY : option string }.

(** The log is chronological and holds every call, failed ones
    included.  Reading fails on a missing file; creating a directory and
    writing fail when the platform says so. *)
Record State : Type := { log : list Event; disk : gmap string Buffer }.

Definition M (A : Type) : Type := State → Result A * State.

Definition ret {A} (a : A) : M A := λ s, (Ok a, s).

Definition throw {A} (e : Error) : M A := λ s, (Err e, s).

Definition bind {A B} (m : M A) (k : A → M B) : M B :=
  λ s, match m s with
       | (Ok a, s') => k a s'
       | (Err e, s') => (Err e, s')
       end.

Definition lift {A} (r : Result A) : M A :=
  match r with Ok a => ret a | Err e => throw e end.

Declare Scope js_scope.
Delimit Scope js_scope with js.
Notation "'let*' x ':=' m 'in' k" := (bind m (λ x, k))
  (at level 10, x name, m at level 100, k at level 200) : js_scope.
Notation "'do' m 'in' k" := (bind m (λ _, k))
  (at level 10, m at level 100, k at level 200) : js_scope.
Open Scope js_scope.

(** *** Primitive effects *)

(** [await fetch(url, init)] *)
Definition fetch `{Platform} (url : string) (init : RequestInit) : M Response :=
  λ s, let s' := {| log := log s ++ [Fetch url init]; disk := disk s |} in
       match network (log s) url init with
       | Rejects => (Err (FetchRejected url), s')
       | Resolves res => (Ok res, s')
       end.

(** [await mkdir(path, { recursive: true })] *)
Definition mkdir `{Platform} (path : string) : M unit :=
  λ s, let s' := {| log := log s ++ [Mkdir path]; disk := disk s |} in
       if mkdir_succeeds (log s) (disk s) path then (Ok tt, s')
       else (Err (IoError path), s').

(** [await writeFile(path, data)]: creates or overwrites the file, or
    rejects. *)
Definition writeFile `{Platform} (path : string) (data : Buffer) : M unit :=
  λ s, let logged := log s ++ [WriteFile path data] in
       match writeFile_outcome (log s) (disk s) path data with
       | Written =>
           (Ok tt, {| log := logged; disk := <[path := data]> (disk s) |})
       | NotWritten None =>
           (Err (IoError path), {| log := logged; disk := disk s |})
       | NotWritten (Some partial) =>
           (Err (IoError path),
            {| log := logged; disk := <[path := partial]> (disk s) |})
       end.

(** [await readFile(path)] *)
Definition readFile (path : string) : M Buffer :=
  λ s, let s' := {| log := log s ++ [ReadFile path]; disk := disk s |} in
       match disk s !! path with
       | Some data => (Ok data, s')
       | None => (Err (IoError path), s')
       end.

(** [(await stat(path)).size] *)
Definition stat_size (path : string) : M N :=
  λ s, let s' := {| log := log s ++ [Stat path]; disk := disk s |} in
       match disk s !! path with
       | Some data => (Ok (N.of_nat (length data)), s')
       | None => (Err (IoError path), s')
       end.

(** ** client.ts *)

Definition USER_AGENT : string := "pullweights-mcp/0.1.0".

Record PullWeightsClient : Type := { baseUrl : string; apiKey : option string }.

(** Truthiness of a value of type [string | undefined]. *)
Definition truthy (o : option string) : bool :=
  match o with Some s => negb (falsy s) | None => false end.

(** [s.replace(/\/$/, ...)] with an empty replacement: drops one final
    slash. *)
Fixpoint strip_trailing_slash (s : string) : string :=
  match s with
  | EmptyString => EmptyString
  | String c rest =>
      if Ascii.eqb c "/" && falsy rest then EmptyString
      else String c (strip_trailing_slash rest)
  end.

(** [constructor()] *)
Definition new_PullWeightsClient `{Platform} : PullWeightsClient :=
  {| baseUrl :=
       strip_trailing_slash
         (if truthy PULLWEIGHTS_API_URL then default EmptyString PULLWEIGHTS_API_URL
          else "https://api.pullweights.com");
     apiKey := PULLWEIGHTS_API_KEY |}.

Section Client.
Context `{Platform}.
Variable this : PullWeightsClient.

(** [private headers()] *)
Definition client_headers : gmap string string :=
  let h : gmap string string :=
    <["Accept" := "application/json"]> (<["User-Agent" := USER_AGENT]> ∅) in
  if truthy (apiKey this)
  then <["Authorization" := "Bearer " +:+ default EmptyString (apiKey this)]> h
  else h.

(** [requireAuth()] *)
Definition requireAuth : M unit :=
  if negb (truthy (apiKey this)) then throw AuthenticationRequired else ret tt.

(** The message extracted from the body of a failed request. *)
Definition error_message (res : Response) : string :=
  match res_json res with
  | Some (JError error) => error
  | Some (JMessage (Some msg)) => or_else msg (statusText res)
  | _ => statusText res
  end.

(** [private async request<T>(path, init?)]; the spread of the two header
    objects lets the keys of [init] win. *)
Definition request (path : string) (init : option RequestInit) : M Json :=
  let url := baseUrl this +:+ path in
  let* res := fetch url
    {| method := init ≫= method;
       headers := from_option headers ∅ init ∪ client_headers;
       body := init ≫= body;
       redirect := init ≫= redirect |} in
  if negb (ok res) then throw (RequestFailed (status res) (error_message res))
  else match res_json res with
       | Some j => ret j
       | None => throw JsonSyntaxError
       end.

(** The casts [as T] of the source are unchecked; a body of another shape
    fails at its first use, which the model places here. *)
Definition as_SearchResponse (j : Json) : M SearchResponse :=
  match j with JSearch r => ret r | _ => throw TypeError end.
Definition as_ModelSummaries (j : Json) : M (list ModelSummary) :=
  match j with JModels l => ret l | _ => throw TypeError end.
Definition as_OrgSummaries (j : Json) : M (list OrgSummary) :=
  match j with JOrgs l => ret l | _ => throw TypeError end.
Definition as_Manifest (j : Json) : M Manifest :=
  match j with JManifest m => ret m | _ => throw TypeError end.
Definition as_TagInfos (j : Json) : M (list TagInfo) :=
  match j with JTags l => ret l | _ => throw TypeError end.
Definition as_PullResponse (j : Json) : M PullResponse :=
  match j with JPull r => ret r | _ => throw TypeError end.
Definition as_PushInitResponse (j : Json) : M PushInitResponse :=
  match j with JPushInit r => ret r | _ => throw TypeError end.
Definition as_PushFinalizeResponse (j : Json) : M PushFinalizeResponse :=
  match j with JPushFinalize r => ret r | _ => throw TypeError end.

Record SearchParams : Type := {
  sp_q : option string; sp_type : option string; sp_per_page : option N;
  sp_framework : option string; sp_sort : option string; sp_page : option N }.

(** [if (v) qs.set(key, v)] for a string, and for a number. *)
Definition qs_string (key : string) (v : option string) : list (string * string) :=
  if truthy v then [(key, default EmptyString v)] else [].
Definition qs_number (key : string) (v : option N) : list (string * string) :=
  match v with
  | Some n => if (n =? 0)%N then [] else [(key, pretty n)]
  | None => []
  end.

(** [async search(params)] *)
Definition search (params : SearchParams) : M SearchResponse :=
  let query := URLSearchParams_toString
    (qs_string "q" (sp_q params) ++ qs_string "type" (sp_type params)
     ++ qs_number "per_page" (sp_per_page params)
     ++ qs_string "framework" (sp_framework params)
     ++ qs_string "sort" (sp_sort params)
     ++ qs_number "page" (sp_page params)) in
  let* j := request ("/v1/search" +:+ (if falsy query then EmptyString else "?" +:+ query)) None in
  as_SearchResponse j.

(** [async listModels(org)] *)
Definition listModels (org : string) : M (list ModelSummary) :=
  let* j := request ("/v1/models/" +:+ encodeURIComponent org) None in
  as_ModelSummaries j.

(** [async listOrgs()] *)
Definition listOrgs : M (list OrgSummary) :=
  do requireAuth in
  let* j := request "/v1/orgs" None in
  as_OrgSummaries j.

(** [async getManifest(org, model, tag)] *)
Definition getManifest (org model tag : string) : M Manifest :=
  let* j := request ("/v1/models/" +:+ encodeURIComponent org +:+ "/"
                     +:+ encodeURIComponent model +:+ "/manifests/"
                     +:+ encodeURIComponent tag) None in
  as_Manifest j.

(** [async listTags(org, model)] *)
Definition listTags (org model : string) : M (list TagInfo) :=
  let* j := request ("/v1/models/" +:+ encodeURIComponent org +:+ "/"
                     +:+ encodeURIComponent model +:+ "/tags") None in
  as_TagInfos j.

(** [async pull(org, model, tag)] *)
Definition client_pull (org model tag : string) : M PullResponse :=
  do requireAuth in
  let* j := request ("/v1/models/" +:+ encodeURIComponent org +:+ "/"
                     +:+ encodeURIComponent model +:+ "/pull/"
                     +:+ encodeURIComponent tag) None in
  as_PullResponse j.

Definition post_json (b : RequestBody) : RequestInit :=
  {| method := Some "POST";
     headers := <["Content-Type" := "application/json"]> ∅;
     body := Some b;
     redirect := None |}.

(** [async pushInit(org, model, body)] *)
Definition pushInit (org model : string) (b : PushInitBody) : M PushInitResponse :=
  do requireAuth in
  let* j := request ("/v1/models/" +:+ encodeURIComponent org +:+ "/"
                     +:+ encodeURIComponent model +:+ "/push/init")
                    (Some (post_json (InitJson b))) in
  as_PushInitResponse j.

(** The options with which [uploadToS3] calls [fetch]. *)
Definition put_octets (data : Buffer) : RequestInit :=
  {| method := Some "PUT";
     headers := <["Content-Length" := pretty (N.of_nat (length data))]>
                  (<["Content-Type" := "application/octet-stream"]> ∅);
     body := Some (Raw data);
     redirect := None |}.

(** [async uploadToS3(url, data)] *)
Definition uploadToS3 (url : string) (data : Buffer) : M unit :=
  let* res := fetch url (put_octets data) in
  if negb (ok res) then throw (S3UploadFailed (status res) (statusText res))
  else ret tt.

(** [async pushFinalize(org, model, body)] *)
Definition pushFinalize (org model : string) (b : PushFinalizeBody)
  : M PushFinalizeResponse :=
  do requireAuth in
  let* j := request ("/v1/models/" +:+ encodeURIComponent org +:+ "/"
                     +:+ encodeURIComponent model +:+ "/push/finalize")
                    (Some (post_json (FinalizeJson b))) in
  as_PushFinalizeResponse j.

End Client.

(** ** index.ts: the tools *)

(** [createHash("sha256").update(data).digest("hex")] *)
Definition sha256 `{Platform} (data : Buffer) : string := sha256_digest_hex data.

(** The value a tool returns: [{ content: [{ type: "text", text }] }]. *)
Record ToolResult : Type := { text : string }.

Definition newline : string := String (ascii_of_nat 10) EmptyString.

(** [v || fallback] for a value of type [string | null]. *)
Definition or_default (v : option string) (fallback : string) : string :=
  if truthy v then default EmptyString v else fallback.

(** A value stored in the body of [update]. *)
Inductive UpdateValue : Type :=
  | VString (s : string)
  | VStrings (l : list string).

(** [if (v !== undefined) body.key = v] *)
Definition set_if_defined {A} (key : string) (inj : A → UpdateValue) (v : option A)
    (b : gmap string UpdateValue) : gmap string UpdateValue :=
  match v with Some x => <[key := inj x]> b | None => b end.

(** One local file of a push, as built inside [Promise.all]. *)
Record FileInfo : Type := {
  fi_path : string; fi_filename : string; fi_size_bytes : N;
  fi_sha256 : string; fi_data : Buffer }.

Section Tools.
Context `{Platform}.

(** [const client = new PullWeightsClient()] *)
Variable client : PullWeightsClient.

(** [client.updateModel] is called by [update] but its definition is not
    part of the available [client.ts]; it is a parameter here. *)
Variable updateModel :
  PullWeightsClient → string → string → gmap string UpdateValue → M UpdateResponse.

(** The tool [ls] *)
Definition ls (org : option string) : M ToolResult :=
  if truthy org then
    let org := default EmptyString org in
    let* models := listModels client org in
    if (length models =? 0)%nat
    then ret {| text := "No models found in " +:+ org +:+ "." |}
    else ret {| text := join newline (map (λ m,
           ms_org m +:+ "/" +:+ ms_name m +:+ ":"
           +:+ or_default (head (ms_tags m)) "latest" +:+ " — "
           +:+ or_default (ms_description m) "No description"
           +:+ " [" +:+ ms_visibility m +:+ "]") models) |}
  else
    let* orgs := listOrgs client in
    if (length orgs =? 0)%nat
    then ret {| text := "No organizations found." |}
    else ret {| text := join newline (map (λ o,
           os_name o +:+ (if os_is_personal o then " (personal)" else EmptyString)
           +:+ " — " +:+ pretty (os_model_count o) +:+ " models, "
           +:+ pretty (os_member_count o) +:+ " members [" +:+ os_role o +:+ "]")
           orgs) |}.

(** The check shared by [tags] and [update]:
    [parts.length !== 2 || !parts[0] || !parts[1]]. *)
Definition org_and_name (model_ref : string) : Result (string * string) :=
  match split "/" model_ref with
  | [p0; p1] =>
      if falsy p0 || falsy p1 then Err (InvalidOrgModel model_ref)
      else Ok (p0, p1)
  | _ => Err (InvalidOrgModel model_ref)
  end.

(** The tool [tags] *)
Definition tags (model_ref : string) : M ToolResult :=
  let* on := lift (org_and_name model_ref) in
  let* ts := listTags client on.1 on.2 in
  if (length ts =? 0)%nat
  then ret {| text := "No tags found for " +:+ model_ref +:+ "." |}
  else ret {| text := join newline (map (λ t,
         ti_tag t +:+ " — " +:+ formatBytes (ti_total_size_bytes t)
         +:+ " (digest:" +:+ String.substring 0 12 (ti_sha256_digest t)
         +:+ "…) pushed " +:+ ti_created_at t) ts) |}.

(** The tool [update] *)
Definition update (model_ref : string)
    (description visibility framework license : option string)
    (tags : option (list string)) : M ToolResult :=
  let* on := lift (org_and_name model_ref) in
  let body : gmap string UpdateValue :=
    set_if_defined "tags" VStrings tags
      (set_if_defined "license" VString license
        (set_if_defined "framework" VString framework
          (set_if_defined "visibility" VString visibility
            (set_if_defined "description" VString description ∅)))) in
  if (size body =? 0)%nat
  then ret {| text := "No fields to update. Provide at least one of: "
                      +:+ "description, visibility, framework, license, tags." |}
  else
    let* res := updateModel client on.1 on.2 body in
    ret {| text := "Updated " +:+ on.1 +:+ "/" +:+ on.2 +:+ ": " +:+ ur_message res |}.

(** [{ redirect: "follow" }] *)
Definition follow_redirects : RequestInit :=
  {| method := None; headers := ∅; body := None; redirect := Some "follow" |}.

(** The line pushed on [downloaded] for a file that was written. *)
Definition status_line (file : PullFile) : string :=
  filename file +:+ " — " +:+ formatBytes (size_bytes file) +:+ " ✓".

(** The body of the loop [for (const file of pullRes.files)] of [pull],
    up to the write. *)
Definition pull_file (destDir : string) (file : PullFile) : M unit :=
  let filePath := path_join destDir (filename file) in
  let* res := fetch (download_url file) follow_redirects in
  if negb (ok res) then throw (DownloadFailed (filename file) (status res))
  else
    let buffer := res_bytes res in
    let checksum := sha256 buffer in
    if negb (String.eqb checksum (sha256_hex file))
    then throw (ChecksumMismatch (filename file) (sha256_hex file) checksum)
    else writeFile filePath buffer.

(** The loop itself; [downloaded] is the array of status lines, which
    receives its line once the file is written. *)
Fixpoint pull_files (destDir : string) (files : list PullFile)
    (downloaded : list string) : M (list string) :=
  match files with
  | [] => ret downloaded
  | file :: rest =>
      do pull_file destDir file in
      pull_files destDir rest (downloaded ++ [status_line file])
  end.

(** [output_dir || resolve("pullweights_models", ref.org, ref.model, ref.tag)] *)
Definition pull_destDir (ref : ModelRef) (output_dir : option string) : string :=
  if truthy output_dir then default EmptyString output_dir
  else path_resolve ["pullweights_models"; org ref; model ref; tag ref].

(** The text [pull] returns. *)
Definition pull_report (ref : ModelRef) (destDir : string) (pullRes : PullResponse)
    (downloaded : list string) : ToolResult :=
  {| text := join newline
       (["Downloaded " +:+ org ref +:+ "/" +:+ model ref +:+ ":" +:+ tag ref
           +:+ " to " +:+ destDir;
         "Digest: " +:+ pr_sha256_digest pullRes;
         "Total: " +:+ formatBytes (pr_total_size_bytes pullRes);
         EmptyString] ++ downloaded) |}.

(** The tool [pull] *)
Definition pull (model_ref : string) (output_dir : option string) : M ToolResult :=
  let* ref := lift (parseModelRef model_ref) in
  let* pullRes := client_pull client (org ref) (model ref) (tag ref) in
  let destDir := pull_destDir ref output_dir in
  do mkdir destDir in
  let* downloaded := pull_files destDir (pr_files pullRes) [] in
  ret (pull_report ref destDir pullRes downloaded).

(** [filePath.split("/").pop()!] *)
Definition basename (filePath : string) : string :=
  default EmptyString (pop (split "/" filePath)).

(** [Promise.all(files.map(async (filePath) => ...))].  Every callback runs
    up to its first [await], so all the reads are issued first, in the
    order of [files]; the callbacks whose read succeeded go on with
    [stat], taken here in the same order.  The promise rejects when one
    of the callbacks does; the order of completion is not modelled, and
    the error kept is that of the first failing file of [files]. *)
Fixpoint issue_reads (files : list string) : M (list (string * option Buffer)) :=
  match files with
  | [] => ret []
  | filePath :: rest =>
      let* data := (λ s, match readFile filePath s with
                         | (Ok d, s') => (Ok (Some d), s')
                         | (Err _, s') => (Ok None, s')
                         end) in
      let* others := issue_reads rest in
      ret ((filePath, data) :: others)
  end.

Fixpoint finish_reads (pending : list (string * option Buffer))
    : M (list (Result FileInfo)) :=
  match pending with
  | [] => ret []
  | (filePath, None) :: rest =>
      let* others := finish_reads rest in
      ret (Err (IoError filePath) :: others)
  | (filePath, Some data) :: rest =>
      let* info := (λ s, match stat_size filePath s with
                         | (Ok size, s') =>
                             (Ok (Ok {| fi_path := filePath;
                                        fi_filename := basename filePath;
                                        fi_size_bytes := size;
                                        fi_sha256 := sha256 data;
                                        fi_data := data |}), s')
                         | (Err e, s') => (Ok (Err e), s')
                         end) in
      let* others := finish_reads rest in
      ret (info :: others)
  end.

Fixpoint all_settled (outcomes : list (Result FileInfo)) : Result (list FileInfo) :=
  match outcomes with
  | [] => Ok []
  | Err e :: _ => Err e
  | Ok info :: rest =>
      match all_settled rest with
      | Ok infos => Ok (info :: infos)
      | Err e => Err e
      end
  end.

Definition read_fileInfos (files : list string) : M (list FileInfo) :=
  let* pending := issue_reads files in
  let* outcomes := finish_reads pending in
  lift (all_settled outcomes).

(** [fileInfos.find((f) => f.filename === upload.filename)] *)
Definition find_fileInfo (fileInfos : list FileInfo) (upload : PushInitUpload)
    : option FileInfo :=
  List.find (λ f, String.eqb (fi_filename f) (up_filename upload)) fileInfos.

(** The body of the loop [for (const upload of initRes.uploads)] of
    [push]. *)
Definition upload_one (fileInfos : list FileInfo) (upload : PushInitUpload) : M unit :=
  match find_fileInfo fileInfos upload with
  | None => throw (NoLocalFile (up_filename upload))
  | Some fileInfo => uploadToS3 (upload_url upload) (fi_data fileInfo)
  end.

Fixpoint upload_all (fileInfos : list FileInfo) (targets : list PushInitUpload)
    : M unit :=
  match targets with
  | [] => ret tt
  | upload :: rest =>
      do upload_one fileInfos upload in
      upload_all fileInfos rest
  end.

Definition descriptor (f : FileInfo) : FileDescriptor :=
  {| fd_filename := fi_filename f; fd_size_bytes := fi_size_bytes f;
     fd_sha256 := fi_sha256 f |}.

(** The text [push] returns. *)
Definition push_report (ref : ModelRef) (finalRes : PushFinalizeResponse) : ToolResult :=
  {| text := join newline
       (["Pushed " +:+ org ref +:+ "/" +:+ model ref +:+ ":" +:+ tag ref;
         "Version: " +:+ fr_version_id finalRes;
         "Digest: " +:+ fr_sha256_digest finalRes;
         "Total: " +:+ formatBytes (fr_total_size_bytes finalRes);
         EmptyString]
        ++ map (λ f, "  " +:+ ff_filename f +:+ " — "
                     +:+ formatBytes (ff_size_bytes f) +:+ " (sha256:"
                     +:+ String.substring 0 12 (ff_sha256 f) +:+ "…)")
               (fr_files finalRes)) |}.

(** The three phases of [push], which follow its check of the tag.
    [itemType] is the argument [type] of the later version of the tool;
    the earlier one sends no such key ([None]). *)
Definition push_phases (ref : ModelRef) (files : list string)
    (itemType description visibility : option string) : M ToolResult :=
  let* fileInfos := read_fileInfos files in
  let* initRes := pushInit client (org ref) (model ref)
    {| ib_tag := tag ref; ib_type := itemType; ib_description := description;
       ib_visibility := visibility; ib_files := map descriptor fileInfos |} in
  do upload_all fileInfos (uploads initRes) in
  let* finalRes := pushFinalize client (org ref) (model ref)
    {| fb_push_id := push_id initRes; fb_tag := tag ref |} in
  ret (push_report ref finalRes).

(** The tool [push] *)
Definition push (model_ref : string) (files : list string)
    (itemType description visibility : option string) : M ToolResult :=
  let* ref := lift (parseModelRef model_ref) in
  if String.eqb (tag ref) "latest" && negb (includes ":" model_ref)
  then throw ExplicitTagRequired
  else push_phases ref files itemType description visibility.

End Tools.

(** ** Vocabulary of the specification

    The notions below are those in which the specification speaks about
    the program; none of them is used by the program itself. *)

(** Exactly one ["/"], separating two non-empty segments. *)
Definition one_slash_two_segments (s : string) : Prop :=
  count_char "/" s = 1 ∧
  ∃ a b, a ≠ EmptyString ∧ b ≠ EmptyString ∧ s = a +:+ "/" +:+ b.

(** A non-empty segment of the grammar, free of both delimiters. *)
Definition segment (s : string) : Prop :=
  s ≠ EmptyString ∧ includes "/" s = false ∧ includes ":" s = false.

(** The strings of the grammar [org "/" name [":" tag]]. *)
Definition reference_string (o n : string) (t : option string) : string :=
  o +:+ "/" +:+ n +:+
  match t with Some tg => ":" +:+ tg | None => EmptyString end.

(** [org + "/" + name + ":" + tag] *)
Definition reconstruct (r : ModelRef) : string :=
  org r +:+ "/" +:+ model r +:+ ":" +:+ tag r.

(** The event logged by [request]. *)
Definition request_event (this : PullWeightsClient) (path : string)
    (init : option RequestInit) : Event :=
  Fetch (baseUrl this +:+ path)
    {| method := init ≫= method;
       headers := from_option headers ∅ init ∪ client_headers this;
       body := init ≫= body;
       redirect := init ≫= redirect |}.

(** The state reached from [s] after the events [es], the disk untouched. *)
Definition after (s : State) (es : list Event) : State :=
  {| log := log s ++ es; disk := disk s |}.

Section RunVocabulary.
Context `{Platform}.

(** The record [push] builds for a file that is on the disk [d]. *)
Definition local_file (d : gmap string Buffer) (filePath : string) : option FileInfo :=
  (λ data, {| fi_path := filePath; fi_filename := basename filePath;
              fi_size_bytes := N.of_nat (length data);
              fi_sha256 := sha256 data; fi_data := data |}) <$> d !! filePath.

(** The init call of a push. *)
Definition init_event (client : PullWeightsClient) (ref : ModelRef)
    (itemType description visibility : option string) (fileInfos : list FileInfo)
    : Event :=
  request_event client
    ("/v1/models/" +:+ encodeURIComponent (org ref) +:+ "/"
     +:+ encodeURIComponent (model ref) +:+ "/push/init")
    (Some (post_json (InitJson
       {| ib_tag := tag ref; ib_type := itemType; ib_description := description;
          ib_visibility := visibility; ib_files := map descriptor fileInfos |}))).

(** The blob upload for one target: the bytes are those of the local file
    that [find] returns for the name of the target. *)
Definition upload_event (fileInfos : list FileInfo) (u : PushInitUpload) : Event :=
  Fetch (upload_url u)
    (put_octets (from_option fi_data [] (find_fileInfo fileInfos u))).

(** The finalize call of a push. *)
Definition finalize_event (client : PullWeightsClient) (ref : ModelRef)
    (session : PushInitResponse) : Event :=
  request_event client
    ("/v1/models/" +:+ encodeURIComponent (org ref) +:+ "/"
     +:+ encodeURIComponent (model ref) +:+ "/push/finalize")
    (Some (post_json (FinalizeJson
       {| fb_push_id := push_id session; fb_tag := tag ref |}))).

(** The events of the first phase of a push whose files are all
    readable. *)
Definition read_events (files : list string) : list Event :=
  map ReadFile files ++ map Stat files.

(** What the network answers to a call, after [history]. *)
Definition answer (history : list Event) (call : Event) : FetchResult :=
  match call with
  | Fetch url init => network history url init
  | _ => Rejects
  end.

(** Whether the network answers a call with a 2xx status, after
    [history]. *)
Definition answers_ok (history : list Event) (call : Event) : bool :=
  match answer history call with
  | Resolves res => ok res
  | Rejects => false
  end.

(** The index of the first of [calls], issued one after the other, that
    the network does not answer with a 2xx status. *)
Fixpoint first_failure (history : list Event) (calls : list Event) : option nat :=
  match calls with
  | [] => None
  | call :: rest =>
      if answers_ok history call
      then S <$> first_failure (history ++ [call]) rest
      else Some 0
  end.

(** The third phase of a push and its report. *)
Definition conclude (client : PullWeightsClient) (ref : ModelRef)
    (session : PushInitResponse) : M ToolResult :=
  bind (pushFinalize client (org ref) (model ref)
          {| fb_push_id := push_id session; fb_tag := tag ref |})
       (λ finalRes, ret (push_report ref finalRes)).

(** The two ways in which [uploadToS3] fails. *)
Definition upload_failure (e : Error) : Prop :=
  (∃ code reason, e = S3UploadFailed code reason) ∨ (∃ url, e = FetchRejected url).

(** A finalize call, of whatever session. *)
Definition is_finalize (e : Event) : bool :=
  match e with
  | Fetch _ init =>
      match body init with Some (FinalizeJson _) => true | _ => false end
  | _ => false
  end.

(** The target [u] names a local file. *)
Definition has_local_file (fileInfos : list FileInfo) (u : PushInitUpload) : Prop :=
  is_Some (find_fileInfo fileInfos u).

End RunVocabulary.

(** ** A concrete platform

    A small world on which the statements below are exercised: a registry
    at [https://registry.test] holding the model [acme/resnet], and a blob
    store at [https://blobs.test].  The digest of this world is a toy
    function, not SHA-256. *)

Module Demo.

Definition bytes (s : string) : Buffer := Stdlib.Strings.String.list_byte_of_string s.

Definition digest (data : Buffer) : string := "digest-of-" +:+ Stdlib.Strings.String.string_of_list_byte data.

Definition plan : PullResponse :=
  {| pr_org := "acme"; pr_model := "resnet"; pr_tag := "v2";
     pr_version_id := "ver-7"; pr_sha256_digest := "digest-of-all";
     pr_total_size_bytes := 12;
     pr_files :=
       [ {| filename := "weights.bin"; download_url := "https://blobs.test/get/weights";
            sha256_hex := "digest-of-WEIGHTS"; size_bytes := 7 |};
         {| filename := "config.json"; download_url := "https://blobs.test/get/config";
            sha256_hex := "digest-of-{}"; size_bytes := 2 |};
         {| filename := "vocab.txt"; download_url := "https://blobs.test/get/vocab";
            sha256_hex := "digest-of-abc"; size_bytes := 3 |} ] |}.

Definition session : PushInitResponse :=
  {| push_id := "push-1";
     uploads :=
       [ {| up_filename := "weights.bin"; s3_key := "k1";
            upload_url := "https://blobs.test/put/1" |};
         {| up_filename := "config.json"; s3_key := "k2";
            upload_url := "https://blobs.test/put/2" |} ] |}.

(** A session in which the registry left out [config.json]. *)
Definition partial_session : PushInitResponse :=
  {| push_id := "push-2";
     uploads :=
       [ {| up_filename := "weights.bin"; s3_key := "k1";
            upload_url := "https://blobs.test/put/1" |} ] |}.

Definition committed : PushFinalizeResponse :=
  {| fr_version_id := "ver-8"; fr_tag := "v3"; fr_total_size_bytes := 7;
     fr_sha256_digest := "digest-of-all";
     fr_files := [ {| ff_filename := "weights.bin"; ff_size_bytes := 7;
                      ff_sha256 := "digest-of-WEIGHTS" |} ] |}.

Definition answer (code : N) (reason : string) (payload : Buffer) (j : option Json)
    : FetchResult :=
  Resolves {| status := code; statusText := reason; res_bytes := payload; res_json := j |}.

(** The served copy of [config.json] is not the one the plan declares. *)
Definition serve (history : list Event) (url : string) (init : RequestInit)
    : FetchResult :=
  if String.eqb url "https://registry.test/v1/models/acme/resnet/pull/v2"
  then answer 200 "OK" [] (Some (JPull plan))
  else if String.eqb url "https://blobs.test/get/weights"
  then answer 200 "OK" (bytes "WEIGHTS") None
  else if String.eqb url "https://blobs.test/get/config"
  then answer 200 "OK" (bytes "{tampered}") None
  else if String.eqb url "https://blobs.test/get/vocab"
  then answer 200 "OK" (bytes "abc") None
  else if String.eqb url "https://registry.test/v1/models/acme/resnet/push/init"
  then answer 200 "OK" [] (Some (JPushInit session))
  else if String.eqb url "https://registry.test/v1/models/acme/partial/push/init"
  then answer 200 "OK" [] (Some (JPushInit partial_session))
  else if String.eqb url "https://blobs.test/put/1"
  then answer 200 "OK" [] None
  else if String.eqb url "https://blobs.test/put/2"
  then answer 200 "OK" [] None
  else if String.eqb url "https://registry.test/v1/models/acme/resnet/push/finalize"
  then answer 200 "OK" [] (Some (JPushFinalize committed))
  else if String.eqb url "https://registry.test/v1/models/acme/partial/push/finalize"
  then answer 200 "OK" [] (Some (JPushFinalize committed))
  else answer 404 "Not Found" [] (Some (JError "not found")).

Definition platform (key : option string) : Platform :=
  {| mkdir_succeeds := λ _ _ _, true;
     writeFile_outcome := λ _ _ _ _, Written;
     sha256_digest_hex := digest;
     encodeURIComponent := id;
     URLSearchParams_toString :=
       λ kvs, join "&" (map (λ kv, kv.1 +:+ "=" +:+ kv.2) kvs);
     path_join := λ a b, a +:+ "/" +:+ b;
     path_resolve := λ parts, "/work/" +:+ join "/" parts;
     formatBytes := λ n, pretty n +:+ " B";
     network := serve;
     PULLWEIGHTS_API_URL := Some "https://registry.test/";
     PULLWEIGHTS_API_KEY := key |}.

Definition with_key : Platform := platform (Some "pw_test").
Definition without_key : Platform := platform None.

Definition client (P : Platform) : PullWeightsClient := @new_PullWeightsClient P.

(** A stand-in for the missing [updateModel]. *)
Definition updateModel (c : PullWeightsClient) (o n : string)
    (b : gmap string UpdateValue) : M UpdateResponse :=
  ret {| ur_message := "updated" |}.

(** Two local files, and a third with the name of the first in another
    directory. *)
Definition start : State :=
  {| log := [];
     disk := <["/models/weights.bin" := bytes "WEIGHTS"]>
             (<["/models/config.json" := bytes "{}"]>
             (<["/backup/weights.bin" := bytes "OLD"]> ∅)) |}.

Definition files : list string := ["/models/weights.bin"; "/models/config.json"].


Definition ref_v3 : ModelRef := {| org := "acme"; model := "resnet"; tag := "v3" |}.

Definition partial_v3 : ModelRef := {| org := "acme"; model := "partial"; tag := "v3" |}.

Definition info (path name content : string) : FileInfo :=
  {| fi_path := path; fi_filename := name;
     fi_size_bytes := N.of_nat (length (bytes content));
     fi_sha256 := digest (bytes content); fi_data := bytes content |}.

(** The records built for [files] and for [same_name_files]. *)
Definition infos : list FileInfo :=
  [info "/models/weights.bin" "weights.bin" "WEIGHTS";
   info "/models/config.json" "config.json" "{}"].


Definition ok_answer (j : Json) : Response :=
  {| status := 200; statusText := "OK"; res_bytes := []; res_json := Some j |}.

(** The addresses fetched in a log, in order. *)
Definition urls (l : list Event) : list string :=
  omap (λ e, match e with Fetch url _ => Some url | _ => None end) l.

End Demo.

(** ** index.ts: [formatBytes]

    The argument is a byte count, a natural number below [2 ^ 53].  Its
    quotients by [1024], [1024 ^ 2] and [1024 ^ 3] are then exact as
    floating-point numbers, and [toFixed] rounds the exact value of its
    receiver, so that the function is one of exact arithmetic. *)

Module Format.

Fixpoint zeros (n : nat) : string :=
  match n with O => EmptyString | S m => String "0" (zeros m) end.

(** [(num / den).toFixed(digits)] for [digits > 0]: the integer [n] nearest
    to the quotient scaled by [10 ^ digits], the larger one of two, printed
    with a point in front of its last [digits] digits. *)
Definition toFixed (digits : nat) (num den : N) : string :=
  let scale := (10 ^ N.of_nat digits)%N in
  let n := ((2 * num * scale + den) / (2 * den))%N in
  let fraction := pretty (n mod scale)%N in
  pretty (n / scale)%N +:+ "."
    +:+ zeros (digits - String.length fraction) +:+ fraction.

(** [function formatBytes(bytes)] *)
Definition formatBytes (bytes : N) : string :=
  if (bytes <? 1024)%N then pretty bytes +:+ " B"
  else if (bytes <? 1024 * 1024)%N then toFixed 1 bytes 1024 +:+ " KB"
  else if (bytes <? 1024 * 1024 * 1024)%N
       then toFixed 1 bytes (1024 * 1024) +:+ " MB"
  else toFixed 2 bytes (1024 * 1024 * 1024) +:+ " GB".

End Format.

(** ** index.ts: the tool [inspect] *)

Section Inspect.
Context `{Platform}.
Variable client : PullWeightsClient.

(** [JSON.stringify(value, null, 2)], a function of the runtime. *)
Variable JSON_stringify : gmap string string → string.

(** [if (v) lines.push(label + v)] *)
Definition line_if (label : string) (v : option string) : list string :=
  if truthy v then [label +:+ default EmptyString v] else [].

(** The tool [inspect] *)
Definition inspect (model_ref : string) : M ToolResult :=
  let* ref := lift (parseModelRef model_ref) in
  let* manifest := getManifest client (org ref) (model ref) (tag ref) in
  let totalSize := foldl (λ sum f, (sum + mf_size_bytes f)%N) 0%N (m_files manifest) in
  ret {| text := join newline
    ([m_org manifest +:+ "/" +:+ m_name manifest +:+ ":" +:+ m_tag manifest;
      "Schema: v" +:+ pretty (m_schema_version manifest)]
     ++ line_if "Description: " (m_description manifest)
     ++ line_if "Framework: " (m_framework manifest)
     ++ line_if "Architecture: " (m_architecture manifest)
     ++ line_if "License: " (m_license manifest)
     ++ ["Created: " +:+ m_created_at manifest;
         newline +:+ "Files (" +:+ pretty (N.of_nat (length (m_files manifest))) +:+ "):"]
     ++ map (λ f, "  " +:+ mf_filename f +:+ " — " +:+ formatBytes (mf_size_bytes f)
                  +:+ " (sha256:" +:+ String.substring 0 12 (mf_sha256 f) +:+ "…)")
            (m_files manifest)
     ++ [newline +:+ "Total size: " +:+ formatBytes totalSize]
     ++ (if (0 <? size (m_metadata manifest))%nat
         then [newline +:+ "Metadata: " +:+ JSON_stringify (m_metadata manifest)]
         else [])) |}.

End Inspect.

(** ** Vocabulary for whole runs *)

(** The computation [m] only appends events that satisfy [P] to the log,
    and leaves the disk as it is. *)
Definition only_logs {A} (P : Event → Prop) (m : M A) : Prop :=
  ∀ s, ∃ es, (m s).2 = after s es ∧ Forall P es.

(** The computation [m] only appends events that satisfy [P] to the log;
    it may change the disk. *)
Definition appends {A} (P : Event → Prop) (m : M A) : Prop :=
  ∀ s, ∃ es, log (m s).2 = log s ++ es ∧ Forall P es.

(** A request whose address starts with [base]. *)
Definition is_request_to (base : string) (e : Event) : Prop :=
  ∃ path init, e = Fetch (base +:+ path) init.

(** The event is a request that carries an [Authorization] header. *)
Definition carries_key (e : Event) : Prop :=
  match e with
  | Fetch _ init => is_Some (headers init !! "Authorization")
  | _ => False
  end.

(** The event changes the file system. *)
Definition changes_disk (e : Event) : Prop :=
  match e with
  | Mkdir _ | WriteFile _ _ => True
  | _ => False
  end.

Section MoreRunVocabulary.
Context `{Platform}.




End MoreRunVocabulary.

(** ** A second concrete platform

    The registry of the first one, extended with a model whose files are
    served intact, a model one file of which the store has lost, a model
    one file of which lies in a directory that does not exist, a model
    whose push session has two targets of one name, an organisation that
    refuses pushes, and an empty list of tags. *)

Module Demo2.

Definition file_a : PullFile :=
  {| filename := "a.txt"; download_url := "https://blobs.test/get/a";
     sha256_hex := "digest-of-AAA"; size_bytes := 3 |}.

Definition file_b : PullFile :=
  {| filename := "b.txt"; download_url := "https://blobs.test/get/b";
     sha256_hex := "digest-of-BB"; size_bytes := 2 |}.

Definition file_gone : PullFile :=
  {| filename := "gone.bin"; download_url := "https://blobs.test/get/gone";
     sha256_hex := "digest-of-GONE"; size_bytes := 4 |}.

Definition small_plan : PullResponse :=
  {| pr_org := "acme"; pr_model := "small"; pr_tag := "v1";
     pr_version_id := "ver-1"; pr_sha256_digest := "digest-of-small";
     pr_total_size_bytes := 5; pr_files := [file_a; file_b] |}.

Definition broken_plan : PullResponse :=
  {| pr_org := "acme"; pr_model := "broken"; pr_tag := "v1";
     pr_version_id := "ver-2"; pr_sha256_digest := "digest-of-broken";
     pr_total_size_bytes := 7; pr_files := [file_a; file_gone] |}.

Definition file_nested : PullFile :=
  {| filename := "sub/a.txt"; download_url := "https://blobs.test/get/a";
     sha256_hex := "digest-of-AAA"; size_bytes := 3 |}.

Definition nested_plan : PullResponse :=
  {| pr_org := "acme"; pr_model := "nested"; pr_tag := "v1";
     pr_version_id := "ver-3"; pr_sha256_digest := "digest-of-nested";
     pr_total_size_bytes := 5; pr_files := [file_nested; file_b] |}.

(** A session with two targets of one name. *)
Definition twin_session : PushInitResponse :=
  {| push_id := "push-3";
     uploads :=
       [ {| up_filename := "weights.bin"; s3_key := "k1";
            upload_url := "https://blobs.test/put/1" |};
         {| up_filename := "weights.bin"; s3_key := "k2";
            upload_url := "https://blobs.test/put/2" |} ] |}.

Definition refusal : Response :=
  {| status := 403; statusText := "Forbidden"; res_bytes := [];
     res_json := Some (JError "read-only organisation") |}.

Definition serve (history : list Event) (url : string) (init : RequestInit)
    : FetchResult :=
  if String.eqb url "https://registry.test/v1/models/acme/small/pull/v1"
  then Demo.answer 200 "OK" [] (Some (JPull small_plan))
  else if String.eqb url "https://registry.test/v1/models/acme/broken/pull/v1"
  then Demo.answer 200 "OK" [] (Some (JPull broken_plan))
  else if String.eqb url "https://registry.test/v1/models/acme/nested/pull/v1"
  then Demo.answer 200 "OK" [] (Some (JPull nested_plan))
  else if String.eqb url "https://blobs.test/get/a"
  then Demo.answer 200 "OK" (Demo.bytes "AAA") None
  else if String.eqb url "https://blobs.test/get/b"
  then Demo.answer 200 "OK" (Demo.bytes "BB") None
  else if String.eqb url "https://registry.test/v1/models/acme/locked/push/init"
  then Resolves refusal
  else if String.eqb url "https://registry.test/v1/models/acme/twins/push/init"
  then Demo.answer 200 "OK" [] (Some (JPushInit twin_session))
  else if String.eqb url "https://registry.test/v1/models/acme/resnet/tags"
  then Demo.answer 200 "OK" [] (Some (JTags []))
  else Demo.serve history url init.

(** This file system has no directory [sub] under the directory of the
    model [acme/nested]: a write below it is rejected and leaves nothing. *)
Definition write (history : list Event) (d : gmap string Buffer) (path : string)
    (data : Buffer) : WriteOutcome :=
  if String.eqb path "/work/pullweights_models/acme/nested/v1/sub/a.txt"
  then NotWritten None else Written.

Definition platform : Platform :=
  {| mkdir_succeeds := λ _ _ _, true;
     writeFile_outcome := write;
     sha256_digest_hex := Demo.digest;
     encodeURIComponent := id;
     URLSearchParams_toString :=
       λ kvs, join "&" (map (λ kv, kv.1 +:+ "=" +:+ kv.2) kvs);
     path_join := λ a b, a +:+ "/" +:+ b;
     path_resolve := λ parts, "/work/" +:+ join "/" parts;
     formatBytes := Format.formatBytes;
     network := serve;
     PULLWEIGHTS_API_URL := Some "https://registry.test/";
     PULLWEIGHTS_API_KEY := Some "pw_test" |}.

Definition client : PullWeightsClient := @new_PullWeightsClient platform.


Definition broken_v1 : ModelRef := {| org := "acme"; model := "broken"; tag := "v1" |}.

Definition nested_v1 : ModelRef := {| org := "acme"; model := "nested"; tag := "v1" |}.


Definition locked_v1 : ModelRef := {| org := "acme"; model := "locked"; tag := "v1" |}.

Definition stringify (metadata : gmap string string) : string := "{}".

End Demo2.

(** * Properties *)

(** ** Splitting strings *)

Section SplitFacts.
Variable c : ascii.

Lemma split_not_nil s : split c s ≠ [].
Proof.
  destruct s as [|d s]; simpl; [done|].
  destruct (Ascii.eqb d c); [done|]. by destruct (split c s).
Qed.

Lemma includes_false_count s : includes c s = false ↔ count_char c s = 0.
Proof.
  induction s as [|d s IH]; simpl; [done|].
  destruct (Ascii.eqb d c); simpl; [split; intros; discriminate|exact IH].
Qed.

Lemma count_char_app a b : count_char c (a +:+ b) = count_char c a + count_char c b.
Proof. induction a as [|d a IH]; simpl; [done|]. rewrite IH. lia. Qed.

Lemma includes_app a b : includes c (a +:+ b) = includes c a || includes c b.
Proof.
  induction a as [|d a IH]; simpl; [done|]. rewrite IH. by destruct (Ascii.eqb d c).
Qed.

Lemma split_no_sep s : includes c s = false → split c s = [s].
Proof.
  induction s as [|d s IH]; simpl; [done|].
  destruct (Ascii.eqb d c); simpl; [discriminate|].
  intros Hs. by rewrite (IH Hs).
Qed.

Lemma split_app_sep a b :
  includes c a = false → split c (a +:+ String c b) = a :: split c b.
Proof.
  induction a as [|d a IH]; simpl.
  - intros _. by rewrite Ascii.eqb_refl.
  - destruct (Ascii.eqb d c); simpl; [discriminate|].
    intros Ha. by rewrite (IH Ha).
Qed.

Lemma length_split s : length (split c s) = S (count_char c s).
Proof.
  induction s as [|d s IH]; simpl; [done|].
  destruct (Ascii.eqb d c); simpl; [by rewrite IH|].
  pose proof (split_not_nil s). destruct (split c s); [done|]. exact IH.
Qed.

Lemma join_split s : join (String c EmptyString) (split c s) = s.
Proof.
  induction s as [|d s IH]; simpl; [done|].
  pose proof (split_not_nil s) as Hne.
  destruct (Ascii.eqb d c) eqn:Hd.
  - apply Ascii.eqb_eq in Hd as ->.
    destruct (split c s) as [|p ps]; [done|]. simpl in *. by rewrite IH.
  - destruct (split c s) as [|p ps]; [done|].
    destruct ps; simpl in *; by rewrite <- IH.
Qed.

Lemma split_pieces s : Forall (λ p, includes c p = false) (split c s).
Proof.
  induction s as [|d s IH]; simpl; [by constructor|].
  destruct (Ascii.eqb d c) eqn:Hd; [by constructor|].
  destruct (split c s) as [|p ps]; [by repeat constructor; simpl; rewrite Hd|].
  inversion IH; subst. constructor; [|done]. simpl. by rewrite Hd.
Qed.

Lemma head_split s : head (split c s) = Some (before_first c s).
Proof.
  induction s as [|d s IH]; simpl; [done|].
  destruct (Ascii.eqb d c); [done|].
  destruct (split c s); simpl in *; congruence.
Qed.


Lemma split_app_sep_ex a b :
  ∃ p pre, split c (a +:+ String c b) = p :: pre ++ split c b.
Proof.
  induction a as [|d a (p & pre & IH)]; simpl.
  - rewrite Ascii.eqb_refl. by exists EmptyString, [].
  - rewrite IH. destruct (Ascii.eqb d c).
    + by exists EmptyString, (p :: pre).
    + by exists (String d p), pre.
Qed.


End SplitFacts.

Lemma falsy_false_iff s : falsy s = false ↔ s ≠ EmptyString.
Proof. by destruct s. Qed.

Lemma falsy_true_iff s : falsy s = true ↔ s = EmptyString.
Proof. by destruct s. Qed.

Lemma append_assoc (a b d : string) : (a +:+ b) +:+ d = a +:+ (b +:+ d).
Proof.
  induction a as [|x a IH]; [done|].
  change (String x ((a +:+ b) +:+ d) = String x (a +:+ (b +:+ d))). by rewrite IH.
Qed.

Lemma occurs_in_intro pre needle post : occurs_in needle (pre +:+ needle +:+ post).
Proof. by exists pre, post. Qed.

Lemma append_nil_r (a : string) : a +:+ EmptyString = a.
Proof.
  induction a as [|x a IH]; [done|].
  change (String x (a +:+ EmptyString) = String x a). by rewrite IH.
Qed.

(** ** Model references *)

Lemma split_two_pieces c s p0 p1 :
  split c s = [p0; p1] →
  s = p0 +:+ String c p1 ∧ count_char c s = 1 ∧
  includes c p0 = false ∧ includes c p1 = false.
Proof.
  intros Hs. pose proof (join_split c s) as Hj. pose proof (length_split c s) as Hl.
  pose proof (split_pieces c s) as Hp. rewrite Hs in Hj, Hl, Hp. simpl in *.
  apply Forall_cons in Hp as [H0 Hp]. apply Forall_cons in Hp as [H1 _].
  repeat split; [by rewrite <- Hj|lia|done|done].
Qed.

Lemma two_segments_split s :
  one_slash_two_segments s ↔
  ∃ p0 p1, split "/" s = [p0; p1] ∧ p0 ≠ EmptyString ∧ p1 ≠ EmptyString.
Proof.
  split.
  - intros (Hc & a & b & Ha & Hb & ->). exists a, b.
    change (a +:+ "/" +:+ b) with (a +:+ String "/" b) in *.
    rewrite count_char_app in Hc. simpl in Hc.
    assert (includes "/" a = false) as Ha' by (apply includes_false_count; lia).
    assert (includes "/" b = false) as Hb' by (apply includes_false_count; lia).
    by rewrite split_app_sep, split_no_sep.
  - intros (p0 & p1 & Hs & H0 & H1).
    destruct (split_two_pieces _ _ _ _ Hs) as (-> & Hc & _ & _).
    split; [done|]. by exists p0, p1.
Qed.

Lemma parseModelRef_unfold ref :
  ∃ more, split ":" ref = before_first ":" ref :: more ∧
    parseModelRef ref =
      match split "/" (before_first ":" ref) with
      | [p0; p1] =>
          if falsy p0 || falsy p1 then Err (InvalidModelRef ref)
          else Ok {| org := p0; model := p1;
                     tag := match more with [] => "latest" | t :: _ => t end |}
      | _ => Err (InvalidModelRef ref)
      end.
Proof.
  pose proof (head_split ":" ref) as Hh. pose proof (split_not_nil ":" ref) as Hne.
  unfold parseModelRef. destruct (split ":" ref) as [|mp more]; [done|].
  simpl in Hh. injection Hh as ->. by exists more.
Qed.

(** A reference is accepted as soon as the part in front of its first
    colon is [org/name]. *)
Lemma parseModelRef_accepts ref :
  one_slash_two_segments (before_first ":" ref) →
  ∃ r, parseModelRef ref = Ok r ∧
       org r +:+ "/" +:+ model r = before_first ":" ref.
Proof.
  intros (p0 & p1 & Hs & H0 & H1)%two_segments_split.
  destruct (parseModelRef_unfold ref) as (more & _ & ->). rewrite Hs.
  apply falsy_false_iff in H0 as Hf0. apply falsy_false_iff in H1 as Hf1.
  rewrite Hf0, Hf1. simpl. eexists; split; [done|]. simpl.
  by destruct (split_two_pieces _ _ _ _ Hs) as (-> & _).
Qed.

Lemma parseModelRef_rejects ref :
  ¬ one_slash_two_segments (before_first ":" ref) →
  parseModelRef ref = Err (InvalidModelRef ref).
Proof.
  intros Hno. destruct (parseModelRef_unfold ref) as (more & _ & ->).
  destruct (split "/" (before_first ":" ref)) as [|p0 [|p1 [|]]] eqn:Hs; try done.
  destruct (falsy p0) eqn:Hf0; [done|]. destruct (falsy p1) eqn:Hf1; [done|].
  exfalso. apply Hno, two_segments_split. exists p0, p1.
  by rewrite <- !falsy_false_iff.
Qed.

Lemma parseModelRef_grammar o n t :
  segment o → segment n →
  (∀ tg, t = Some tg → includes ":" tg = false) →
  parseModelRef (reference_string o n t)
  = Ok {| org := o; model := n; tag := default "latest" t |}.
Proof.
  intros (Ho & Hos & Hoc) (Hn & Hns & Hnc) Ht.
  assert (includes ":" (o +:+ String "/" n) = false) as Hc.
  { rewrite includes_app. simpl. by rewrite Hoc, Hnc. }
  assert (split "/" (o +:+ String "/" n) = [o; n]) as Hs.
  { by rewrite split_app_sep, split_no_sep. }
  apply falsy_false_iff in Ho, Hn.
  unfold parseModelRef, reference_string. destruct t as [tg|].
  - change (o +:+ "/" +:+ n +:+ ":" +:+ tg)
      with (o +:+ (String "/" n +:+ String ":" tg)).
    rewrite <- append_assoc, split_app_sep by done.
    rewrite (split_no_sep _ tg) by auto. by rewrite Hs, Ho, Hn.
  - change (o +:+ "/" +:+ n +:+ EmptyString) with (o +:+ (String "/" n +:+ EmptyString)).
    rewrite append_nil_r, split_no_sep by done. by rewrite Hs, Ho, Hn.
Qed.

Lemma parseModelRef_no_colon ref :
  includes ":" ref = false →
  parseModelRef ref = Err (InvalidModelRef ref) ∨
  ∃ r, parseModelRef ref = Ok r ∧ tag r = "latest".
Proof.
  intros Hc. unfold parseModelRef. rewrite (split_no_sep _ _ Hc).
  destruct (split "/" ref) as [|p0 [|p1 [|]]]; auto.
  destruct (falsy p0 || falsy p1); eauto.
Qed.

(** ** The client *)

Section ClientFacts.
Context `{Platform}.
Variable this : PullWeightsClient.

Lemma request_run path init s :
  ∃ r, request this path init s = (r, after s [request_event this path init]) ∧
       r ≠ Err AuthenticationRequired.
Proof.
  unfold request, bind, fetch, after, request_event.
  destruct (network _ _ _) as [|res]; simpl; [by eexists|].
  destruct (ok res); simpl; [|by eexists].
  destruct (res_json res); by eexists.
Qed.

Lemma request_ok path init s res j :
  network (log s) (baseUrl this +:+ path)
    {| method := init ≫= method;
       headers := from_option headers ∅ init ∪ client_headers this;
       body := init ≫= body; redirect := init ≫= redirect |} = Resolves res →
  ok res = true → res_json res = Some j →
  request this path init s = (Ok j, after s [request_event this path init]).
Proof.
  intros Hn Hok Hj. unfold request, bind, fetch. rewrite Hn. simpl.
  by rewrite Hok, Hj.
Qed.

Lemma requireAuth_without_key s :
  truthy (apiKey this) = false → requireAuth this s = (Err AuthenticationRequired, s).
Proof. intros Hk. unfold requireAuth. by rewrite Hk. Qed.

Lemma requireAuth_with_key s :
  truthy (apiKey this) = true → requireAuth this s = (Ok tt, s).
Proof. intros Hk. unfold requireAuth. by rewrite Hk. Qed.

(** A method that sends its request first and casts the answer. *)
Lemma request_then_cast {A} (cast : Json → M A) path init s :
  (∀ j s', ∃ r, cast j s' = (r, s') ∧ r ≠ Err AuthenticationRequired) →
  ∃ r, bind (request this path init) cast s
       = (r, after s [request_event this path init]) ∧
       r ≠ Err AuthenticationRequired.
Proof.
  intros Hcast. unfold bind.
  destruct (request_run path init s) as (r & -> & Hr).
  destruct r as [j|e]; [apply Hcast|]. exists (Err e). split; [done|].
  intros [= ->]. by apply Hr.
Qed.

End ClientFacts.

Ltac cast_is_pure :=
  let j := fresh "j" in
  intros j ?; destruct j; simpl; unfold ret, throw; by eexists.

(** C7.  Without a configured key, [listOrgs], and with it the tool [ls]
    called without an organisation, fails with the authentication error
    and leaves the state untouched: no request is sent.  [listModels]
    (and [ls] with an organisation), [search], [getManifest] and
    [listTags] send their request all the same, and never answer with the
    authentication error. *)
Theorem listOrgs_alone_checks_the_key `{Platform} (this : PullWeightsClient) :
  truthy (apiKey this) = false →
  (∀ s, listOrgs this s = (Err AuthenticationRequired, s)) ∧
  (∀ o s, truthy o = false → ls this o s = (Err AuthenticationRequired, s)) ∧
  (∀ o s, ∃ r,
     listModels this o s
     = (r, after s [request_event this ("/v1/models/" +:+ encodeURIComponent o) None])
     ∧ r ≠ Err AuthenticationRequired) ∧
  (∀ o s, truthy (Some o) = true → ∃ r,
     ls this (Some o) s
     = (r, after s [request_event this ("/v1/models/" +:+ encodeURIComponent o) None])
     ∧ r ≠ Err AuthenticationRequired) ∧
  (∀ params s, ∃ r path,
     search this params s = (r, after s [request_event this path None])
     ∧ r ≠ Err AuthenticationRequired) ∧
  (∀ o m t s, ∃ r,
     getManifest this o m t s
     = (r, after s [request_event this
                      ("/v1/models/" +:+ encodeURIComponent o +:+ "/"
                       +:+ encodeURIComponent m +:+ "/manifests/"
                       +:+ encodeURIComponent t) None])
     ∧ r ≠ Err AuthenticationRequired) ∧
  (∀ o m s, ∃ r,
     listTags this o m s
     = (r, after s [request_event this
                      ("/v1/models/" +:+ encodeURIComponent o +:+ "/"
                       +:+ encodeURIComponent m +:+ "/tags") None])
     ∧ r ≠ Err AuthenticationRequired).
Proof.
  intros Hkey.
  assert (∀ s, listOrgs this s = (Err AuthenticationRequired, s)) as Horgs.
  { intros s. unfold listOrgs, bind. by rewrite requireAuth_without_key. }
  assert (∀ o s, ∃ r,
     listModels this o s
     = (r, after s [request_event this ("/v1/models/" +:+ encodeURIComponent o) None])
     ∧ r ≠ Err AuthenticationRequired) as Hmodels.
  { intros o s. apply request_then_cast. cast_is_pure. }
  repeat split.
  - exact Horgs.
  - intros o s Ho. unfold ls. rewrite Ho. unfold bind. by rewrite Horgs.
  - exact Hmodels.
  - intros o s Ho. unfold ls. rewrite Ho. simpl. unfold bind.
    destruct (Hmodels o s) as (r & -> & Hr).
    destruct r as [models|e].
    + destruct (length models =? 0)%nat; by eexists.
    + exists (Err e). split; [done|]. intros [= ->]. by apply Hr.
  - intros params s. unfold search.
    edestruct (request_then_cast this as_SearchResponse) as (r & Hrun & Hr);
      [cast_is_pure|]. exists r. eexists. split; [exact Hrun|exact Hr].
  - intros o m t s. apply request_then_cast. cast_is_pure.
  - intros o m s. apply request_then_cast. cast_is_pure.
Qed.

(** C8 (as amended).  An [update] of a well-formed [org/model] reference
    that supplies none of the optional fields sends no request and
    returns, as an ordinary result, the text that asks for a field; it
    throws nothing. *)
Theorem update_without_fields_returns_a_notice `{Platform}
    (client : PullWeightsClient)
    (updateModel : PullWeightsClient → string → string
                   → gmap string UpdateValue → M UpdateResponse)
    (model_ref : string) (s : State) :
  one_slash_two_segments model_ref →
  update client updateModel model_ref None None None None None s
  = (Ok {| text := "No fields to update. Provide at least one of: "
                   +:+ "description, visibility, framework, license, tags." |}, s).
Proof.
  intros (p0 & p1 & Hs & H0 & H1)%two_segments_split.
  apply falsy_false_iff in H0, H1.
  unfold update, org_and_name, bind. by rewrite Hs, H0, H1.
Qed.

(** C4.  A push whose reference has no colon throws before anything else
    happens: the state, hence the log of file reads and network calls, is
    as it was.  The error is that of the missing tag whenever the
    reference is [org/model], and that of [parseModelRef] otherwise. *)
Theorem push_without_colon_is_rejected_first `{Platform}
    (client : PullWeightsClient) (model_ref : string) (files : list string)
    (itemType description visibility : option string) (s : State) :
  includes ":" model_ref = false →
  ∃ e, push client model_ref files itemType description visibility s = (Err e, s) ∧
       (e = ExplicitTagRequired ∨ e = InvalidModelRef model_ref) ∧
       (one_slash_two_segments model_ref → e = ExplicitTagRequired).
Proof.
  intros Hc. unfold push, bind.
  assert (before_first ":" model_ref = model_ref) as Hb.
  { pose proof (head_split ":" model_ref) as Hh.
    rewrite (split_no_sep _ _ Hc) in Hh. by injection Hh. }
  destruct (parseModelRef_no_colon _ Hc) as [Hp|(r & Hp & Ht)].
  - rewrite Hp. simpl. eexists; split; [done|]. split; [by right|].
    intros Hseg. rewrite <- Hb in Hseg.
    apply parseModelRef_accepts in Hseg as (r & Hr & _). congruence.
  - rewrite Hp. simpl. rewrite Ht, Hc. simpl. eexists; split; [done|]. by split; [left|].
Qed.

(** C5 (as amended).  The two references of the example parse as stated
    and ["acme"] is rejected; in general a reference is rejected exactly
    when the part in front of its first colon is not made of one slash
    between two non-empty segments.  What follows the first colon is not
    examined. *)
Theorem parseModelRef_examples_and_rejection :
  parseModelRef "acme/resnet"
    = Ok {| org := "acme"; model := "resnet"; tag := "latest" |} ∧
  parseModelRef "acme/resnet:v2"
    = Ok {| org := "acme"; model := "resnet"; tag := "v2" |} ∧
  parseModelRef "acme" = Err (InvalidModelRef "acme") ∧
  ∀ ref, ¬ one_slash_two_segments (before_first ":" ref) ↔
         parseModelRef ref = Err (InvalidModelRef ref).
Proof.
  split; [done|]. split; [done|]. split; [done|].
  intros ref. split; [apply parseModelRef_rejects|].
  intros Herr (r & Hr & _)%parseModelRef_accepts. congruence.
Qed.

(** C6.  For the strings of the grammar, parsing returns the organisation
    and the name of the input, with the tag of the input or ["latest"];
    the reference reconstructed from the result is the input with its tag
    made explicit. *)
Theorem parseModelRef_roundtrip (o n : string) (t : option string) :
  segment o → segment n →
  (∀ tg, t = Some tg → includes ":" tg = false) →
  ∃ r, parseModelRef (reference_string o n t) = Ok r ∧
       org r = o ∧ model r = n ∧ tag r = default "latest" t ∧
       reconstruct r = reference_string o n (Some (default "latest" t)).
Proof.
  intros Ho Hn Ht. eexists. split; [by apply parseModelRef_grammar|]. done.
Qed.

(** ** Pull *)

Lemma after_after s es es' : after (after s es) es' = after s (es ++ es').
Proof. unfold after. simpl. by rewrite app_assoc. Qed.

Lemma after_nil s : after s [] = s.
Proof. destruct s. unfold after. simpl. by rewrite app_nil_r. Qed.

Section PullFacts.
Context `{Platform}.
Variable destDir : string.

Lemma pull_file_match file s res :
  network (log s) (download_url file) follow_redirects = Resolves res →
  ok res = true →
  sha256 (res_bytes res) = sha256_hex file →
  writeFile_outcome (log s ++ [Fetch (download_url file) follow_redirects]) (disk s)
    (path_join destDir (filename file)) (res_bytes res) = Written →
  pull_file destDir file s
  = (Ok tt,
     {| log := log s ++ [Fetch (download_url file) follow_redirects;
                         WriteFile (path_join destDir (filename file)) (res_bytes res)];
        disk := <[path_join destDir (filename file) := res_bytes res]> (disk s) |}).
Proof.
  intros Hn Hok Hsum Hw. unfold pull_file, bind, fetch. rewrite Hn, Hok. simpl.
  rewrite Hsum, String.eqb_refl. simpl. unfold writeFile. simpl. rewrite Hw.
  by rewrite <- app_assoc.
Qed.

Lemma pull_file_not_written file s res left :
  network (log s) (download_url file) follow_redirects = Resolves res →
  ok res = true →
  sha256 (res_bytes res) = sha256_hex file →
  writeFile_outcome (log s ++ [Fetch (download_url file) follow_redirects]) (disk s)
    (path_join destDir (filename file)) (res_bytes res) = NotWritten left →
  pull_file destDir file s
  = (Err (IoError (path_join destDir (filename file))),
     {| log := log s ++ [Fetch (download_url file) follow_redirects;
                         WriteFile (path_join destDir (filename file)) (res_bytes res)];
        disk := match left with
                | Some partial => <[path_join destDir (filename file) := partial]> (disk s)
                | None => disk s
                end |}).
Proof.
  intros Hn Hok Hsum Hw. unfold pull_file, bind, fetch. rewrite Hn, Hok. simpl.
  rewrite Hsum, String.eqb_refl. simpl. unfold writeFile. simpl. rewrite Hw.
  destruct left; by rewrite <- app_assoc.
Qed.

Lemma pull_file_mismatch file s res :
  network (log s) (download_url file) follow_redirects = Resolves res →
  ok res = true →
  sha256 (res_bytes res) ≠ sha256_hex file →
  pull_file destDir file s
  = (Err (ChecksumMismatch (filename file) (sha256_hex file) (sha256 (res_bytes res))),
     after s [Fetch (download_url file) follow_redirects]).
Proof.
  intros Hn Hok Hsum. unfold pull_file, bind, fetch. rewrite Hn, Hok. simpl.
  apply String.eqb_neq in Hsum. by rewrite Hsum.
Qed.

(** A turn of the loop that does not throw has fetched bytes of the
    declared digest and written them. *)
Lemma pull_file_ok_inv file s s' :
  pull_file destDir file s = (Ok tt, s') →
  ∃ res, network (log s) (download_url file) follow_redirects = Resolves res ∧
         ok res = true ∧ sha256 (res_bytes res) = sha256_hex file ∧
         s' = {| log := log s ++ [Fetch (download_url file) follow_redirects;
                                  WriteFile (path_join destDir (filename file))
                                            (res_bytes res)];
                 disk := <[path_join destDir (filename file) := res_bytes res]> (disk s) |}.
Proof.
  intros Hrun.
  destruct (network (log s) (download_url file) follow_redirects) as [|res] eqn:Hn.
  { unfold pull_file, bind, fetch in Hrun. by rewrite Hn in Hrun. }
  destruct (ok res) eqn:Hok.
  2:{ unfold pull_file, bind, fetch in Hrun. by rewrite Hn, Hok in Hrun. }
  destruct (decide (sha256 (res_bytes res) = sha256_hex file)) as [Hsum|Hsum].
  - destruct (writeFile_outcome (log s ++ [Fetch (download_url file) follow_redirects])
                (disk s) (path_join destDir (filename file)) (res_bytes res))
      as [|left] eqn:Hw.
    + rewrite (pull_file_match _ _ _ Hn Hok Hsum Hw) in Hrun. exists res.
      by injection Hrun as <-.
    + by rewrite (pull_file_not_written _ _ _ _ Hn Hok Hsum Hw) in Hrun.
  - by rewrite (pull_file_mismatch _ _ _ Hn Hok Hsum) in Hrun.
Qed.

(** A turn of the loop that throws has either written nothing, or called
    [writeFile] with bytes of the declared digest; the log grows, and on
    the disk at most the path of the file changes. *)
Lemma pull_file_err_inv file s e s' :
  pull_file destDir file s = (Err e, s') →
  (∃ data, log s' = log s ++ [Fetch (download_url file) follow_redirects;
                              WriteFile (path_join destDir (filename file)) data] ∧
           sha256 data = sha256_hex file ∧
           (disk s' = disk s ∨
            ∃ partial, disk s' = <[path_join destDir (filename file) := partial]> (disk s)))
  ∨ (log s' = log s ++ [Fetch (download_url file) follow_redirects] ∧ disk s' = disk s).
Proof.
  intros Hrun.
  destruct (network (log s) (download_url file) follow_redirects) as [|res] eqn:Hn.
  { unfold pull_file, bind, fetch in Hrun. rewrite Hn in Hrun.
    injection Hrun as <- <-. by right. }
  destruct (ok res) eqn:Hok.
  2:{ unfold pull_file, bind, fetch in Hrun. rewrite Hn, Hok in Hrun.
      injection Hrun as <- <-. by right. }
  destruct (decide (sha256 (res_bytes res) = sha256_hex file)) as [Hsum|Hsum].
  - destruct (writeFile_outcome (log s ++ [Fetch (download_url file) follow_redirects])
                (disk s) (path_join destDir (filename file)) (res_bytes res))
      as [|left] eqn:Hw.
    + by rewrite (pull_file_match _ _ _ Hn Hok Hsum Hw) in Hrun.
    + rewrite (pull_file_not_written _ _ _ _ Hn Hok Hsum Hw) in Hrun.
      injection Hrun as <- <-. left. exists (res_bytes res). simpl.
      split; [done|]. split; [done|]. destruct left; [right; by eexists|by left].
  - rewrite (pull_file_mismatch _ _ _ Hn Hok Hsum) in Hrun.
    injection Hrun as <- <-. by right.
Qed.

Lemma pull_files_app pre rest acc s :
  pull_files destDir (pre ++ rest) acc s
  = match pull_files destDir pre acc s with
    | (Ok acc', s') => pull_files destDir rest acc' s'
    | (Err e, s') => (Err e, s')
    end.
Proof.
  revert acc s. induction pre as [|file pre IH]; intros acc s; [done|].
  simpl. unfold bind. destruct (pull_file destDir file s) as [[[]|e] s']; [|done].
  apply IH.
Qed.




End PullFacts.


(** The start of a pull: the reference is parsed, the plan is requested,
    the directory is created, and the turns of the loop for the first
    files of the plan complete. *)
Lemma pull_reaches_file `{Platform} (client : PullWeightsClient)
    (model_ref : string) (output_dir : option string) (s : State)
    (ref : ModelRef) (plan : PullResponse) (s0 : State)
    (pre rest : list PullFile) (lines : list string) (s1 : State) :
  parseModelRef model_ref = Ok ref →
  client_pull client (org ref) (model ref) (tag ref) s = (Ok plan, s0) →
  pr_files plan = pre ++ rest →
  mkdir_succeeds (log s0) (disk s0) (pull_destDir ref output_dir) = true →
  pull_files (pull_destDir ref output_dir) pre []
    (after s0 [Mkdir (pull_destDir ref output_dir)]) = (Ok lines, s1) →
  pull client model_ref output_dir s
  = bind (pull_files (pull_destDir ref output_dir) rest lines)
         (λ downloaded,
            ret (pull_report ref (pull_destDir ref output_dir) plan downloaded)) s1.
Proof.
  intros Hparse Hplan Hfiles Hdir Hpre.
  unfold pull, bind. rewrite Hparse. unfold lift, ret. cbv beta iota.
  rewrite Hplan. unfold mkdir. rewrite Hdir.
  change {| log := log s0 ++ [Mkdir (pull_destDir ref output_dir)]; disk := disk s0 |}
    with (after s0 [Mkdir (pull_destDir ref output_dir)]).
  rewrite Hfiles, pull_files_app, Hpre. done.
Qed.


(** ** Push: reading the local files *)

Section ReadFacts.
Context `{Platform}.

Lemma issue_reads_run files s :
  issue_reads files s
  = (Ok (map (λ p, (p, disk s !! p)) files), after s (map ReadFile files)).
Proof.
  revert s. induction files as [|p files IH]; intros s.
  { simpl. unfold ret. by rewrite after_nil. }
  simpl. unfold bind, readFile.
  destruct (disk s !! p) as [data|]; rewrite IH; unfold ret, after; simpl;
    by rewrite <- app_assoc.
Qed.

Lemma finish_reads_ok d files infos :
  Forall2 (λ p info, local_file d p = Some info) files infos →
  ∀ s, disk s = d →
  finish_reads (map (λ p, (p, d !! p)) files) s
  = (Ok (map Ok infos), after s (map Stat files)).
Proof.
  induction 1 as [|p info files infos Hp _ IH]; intros s Hd.
  { simpl. unfold ret. by rewrite after_nil. }
  simpl. unfold local_file in Hp.
  destruct (d !! p) as [data|] eqn:Hlook; [|done]. injection Hp as <-.
  unfold bind, stat_size. rewrite Hd, Hlook. rewrite IH by done.
  unfold ret, after. simpl. by rewrite <- app_assoc, Hd.
Qed.

Lemma all_settled_ok infos : all_settled (map Ok infos) = Ok infos.
Proof. induction infos as [|info infos IH]; simpl; [done|]. by rewrite IH. Qed.

Lemma read_fileInfos_ok files infos s :
  mapM (local_file (disk s)) files = Some infos →
  read_fileInfos files s = (Ok infos, after s (read_events files)).
Proof.
  intros Hall%mapM_Some. unfold read_fileInfos, bind.
  rewrite issue_reads_run, (finish_reads_ok (disk s) files infos) by done.
  rewrite all_settled_ok. simpl. unfold ret. by rewrite after_after.
Qed.

Lemma local_files_names d files infos :
  mapM (local_file d) files = Some infos →
  map fi_filename infos = map basename files ∧ map fi_path infos = files.
Proof.
  intros Hall%mapM_Some. induction Hall as [|p info files infos Hp _ [IH1 IH2]];
    [done|].
  unfold local_file in Hp. destruct (d !! p); [|done]. injection Hp as <-.
  simpl. by rewrite IH1, IH2.
Qed.

End ReadFacts.

(** ** Push: the upload loop *)

Section UploadFacts.
Context `{Platform}.
Variable infos : list FileInfo.

Lemma uploadToS3_ok url data s :
  answers_ok (log s) (Fetch url (put_octets data)) = true →
  uploadToS3 url data s = (Ok tt, after s [Fetch url (put_octets data)]).
Proof.
  unfold answers_ok, answer, uploadToS3, bind, fetch.
  destruct (network _ _ _) as [|res]; [done|]. by intros ->.
Qed.

Lemma uploadToS3_fails url data s :
  answers_ok (log s) (Fetch url (put_octets data)) = false →
  ∃ e, upload_failure e ∧
       uploadToS3 url data s = (Err e, after s [Fetch url (put_octets data)]).
Proof.
  unfold answers_ok, answer, uploadToS3, bind, fetch.
  destruct (network _ _ _) as [|res].
  - intros _. eexists. split; [right; by eexists|done].
  - intros ->. eexists. split; [left; by do 2 eexists|done].
Qed.

Lemma upload_one_ok u s :
  has_local_file infos u →
  answers_ok (log s) (upload_event infos u) = true →
  upload_one infos u s = (Ok tt, after s [upload_event infos u]).
Proof.
  intros [f Hf]. unfold upload_one, upload_event. rewrite Hf. apply uploadToS3_ok.
Qed.

Lemma upload_one_fails u s :
  has_local_file infos u →
  answers_ok (log s) (upload_event infos u) = false →
  ∃ e, upload_failure e ∧
       upload_one infos u s = (Err e, after s [upload_event infos u]).
Proof.
  intros [f Hf]. unfold upload_one, upload_event. rewrite Hf. apply uploadToS3_fails.
Qed.

Lemma upload_one_missing u s :
  find_fileInfo infos u = None →
  upload_one infos u s = (Err (NoLocalFile (up_filename u)), s).
Proof. intros Hf. unfold upload_one. by rewrite Hf. Qed.

Lemma upload_all_app pre rest s :
  upload_all infos (pre ++ rest) s
  = match upload_all infos pre s with
    | (Ok _, s') => upload_all infos rest s'
    | (Err e, s') => (Err e, s')
    end.
Proof.
  revert s. induction pre as [|u pre IH]; intros s; [done|].
  simpl. unfold bind. destruct (upload_one infos u s) as [[[]|e] s']; [apply IH|done].
Qed.

(** When every target names a local file, the loop issues the uploads in
    the order of the targets and stops after the first that fails. *)
Lemma upload_all_found targets s :
  Forall (has_local_file infos) targets →
  let calls := map (upload_event infos) targets in
  match first_failure (log s) calls with
  | None => upload_all infos targets s = (Ok tt, after s calls)
  | Some k => ∃ e, upload_failure e ∧
                   upload_all infos targets s = (Err e, after s (take (S k) calls))
  end.
Proof.
  intros Hall. revert s. induction Hall as [|u targets Hu _ IH]; intros s.
  { simpl. unfold ret. by rewrite after_nil. }
  cbv zeta. cbn [map first_failure upload_all].
  destruct (answers_ok (log s) (upload_event infos u)) eqn:Hans.
  - unfold bind. rewrite (upload_one_ok _ _ Hu Hans).
    specialize (IH (after s [upload_event infos u])).
    cbv zeta in IH.
    change (log (after s [upload_event infos u]))
      with (log s ++ [upload_event infos u]) in IH.
    destruct (first_failure _ _) as [k|]; simpl.
    + destruct IH as (e & He & ->). exists e. split; [done|]. by rewrite after_after.
    + rewrite IH. by rewrite after_after.
  - destruct (upload_one_fails _ _ Hu Hans) as (e & He & Hrun).
    exists e. split; [done|]. unfold bind. by rewrite Hrun.
Qed.

(** In general the uploads issued are those of a prefix of the targets,
    of all the targets when the loop completes. *)
Lemma upload_all_sent targets s :
  ∃ sent, sent `prefix_of` targets ∧ Forall (has_local_file infos) sent ∧
    (upload_all infos targets s).2 = after s (map (upload_event infos) sent) ∧
    ((upload_all infos targets s).1 = Ok tt → sent = targets).
Proof.
  revert s. induction targets as [|u targets IH]; intros s.
  { exists []. simpl. by rewrite after_nil. }
  simpl. unfold bind. destruct (find_fileInfo infos u) as [f|] eqn:Hf.
  - assert (has_local_file infos u) as Hu by (by exists f).
    destruct (answers_ok (log s) (upload_event infos u)) eqn:Hans.
    + rewrite (upload_one_ok _ _ Hu Hans).
      destruct (IH (after s [upload_event infos u])) as (sent & Hpre & Hall & Hlog & Hok).
      exists (u :: sent). repeat split.
      * by apply prefix_cons.
      * by constructor.
      * rewrite Hlog. by rewrite after_after.
      * intros Hr. by rewrite (Hok Hr).
    + destruct (upload_one_fails _ _ Hu Hans) as (e & He & ->).
      exists [u]. repeat split; [|by repeat constructor|done].
      apply prefix_cons, prefix_nil.
  - rewrite (upload_one_missing _ _ Hf). exists []. simpl. rewrite after_nil.
    repeat split; [apply prefix_nil|done|done].
Qed.

End UploadFacts.


Lemma take_map {A B} (f : A → B) n (l : list A) : take n (map f l) = map f (take n l).
Proof. symmetry. exact (fmap_take f n l). Qed.


Lemma find_fileInfo_Some infos u f :
  find_fileInfo infos u = Some f → f ∈ infos ∧ fi_filename f = up_filename u.
Proof.
  intros [Hin Heq]%List.find_some. split; [by apply list_elem_of_In|].
  by apply String.eqb_eq.
Qed.

Lemma find_fileInfo_named infos u :
  up_filename u ∈ map fi_filename infos → is_Some (find_fileInfo infos u).
Proof.
  intros Hin. destruct (find_fileInfo infos u) as [f|] eqn:Hf; [by exists f|].
  apply list_elem_of_fmap in Hin as (f & Hname & Hin).
  apply list_elem_of_In in Hin.
  pose proof (List.find_none _ _ Hf f Hin) as Hno. simpl in Hno.
  rewrite Hname, String.eqb_refl in Hno. done.
Qed.



(** ** Push: the whole run

    The statements of this section share their setting: a push whose
    reference parses and carries a colon, sent with a key, whose files are
    all on the disk, and whose init request the registry answers with a
    session. *)

Section PushRun.
Context `{Platform}.
Variables (client : PullWeightsClient) (model_ref : string) (files : list string).
Variables (itemType description visibility : option string) (s : State).
Variables (ref : ModelRef) (infos : list FileInfo).
Variables (res : Response) (session : PushInitResponse).

Local Abbreviation s1 := (after s (read_events files)).
Local Abbreviation init := (init_event client ref itemType description visibility infos).
Local Abbreviation finalize := (finalize_event client ref session).
Local Abbreviation calls := (map (upload_event infos) (uploads session)).
Local Abbreviation run := (push client model_ref files itemType description visibility s).

Hypothesis Hparse : parseModelRef model_ref = Ok ref.
Hypothesis Hcolon : includes ":" model_ref = true.
Hypothesis Hkey : truthy (apiKey client) = true.
Hypothesis Hread : mapM (local_file (disk s)) files = Some infos.
Hypothesis Hinit : answer (log s1) init = Resolves res.
Hypothesis Hok : ok res = true.
Hypothesis Hsession : res_json res = Some (JPushInit session).

Lemma push_reaches_uploads :
  run = bind (upload_all infos (uploads session))
             (λ _, conclude client ref session) (after s1 [init]).
Proof using Hparse Hcolon Hkey Hread Hinit Hok Hsession.
  unfold push, bind at 1. rewrite Hparse. unfold lift, ret. cbv beta iota.
  rewrite Hcolon, andb_false_r. unfold push_phases, bind at 1.
  rewrite (read_fileInfos_ok _ _ _ Hread). unfold bind at 1.
  unfold pushInit, bind at 1. rewrite requireAuth_with_key by done.
  unfold bind at 1. erewrite request_ok; [|exact Hinit|exact Hok|exact Hsession].
  simpl. reflexivity.
Qed.

Lemma conclude_run s' :
  ∃ r, conclude client ref session s' = (r, after s' [finalize]).
Proof using Hkey.
  unfold conclude, pushFinalize, bind. rewrite requireAuth_with_key by done.
  destruct (request_run client
    ("/v1/models/" +:+ encodeURIComponent (org ref) +:+ "/"
     +:+ encodeURIComponent (model ref) +:+ "/push/finalize")
    (Some (post_json (FinalizeJson {| fb_push_id := push_id session; fb_tag := tag ref |})))
    s') as (r & -> & _).
  destruct r as [j|e]; [|by eexists].
  destruct j; simpl; unfold throw, ret; by eexists.
Qed.

Lemma calls_are_not_finalize targets :
  Forall (λ ev, is_finalize ev = false)
    (read_events files ++ init :: map (upload_event infos) targets).
Proof.
  apply Forall_app. split; [apply Forall_app; split; by apply Forall_fmap, Forall_true|].
  constructor; [done|]. by apply Forall_fmap, Forall_true.
Qed.

(** C2.  When the registry returns one target per requested file, the
    network sees, after the reads of the first phase: one init call, whose
    body carries one descriptor per file; then the blob uploads, one per
    target in the order of the session, up to the first that fails; and,
    only if none fails, one finalize call, after which nothing follows.
    If an upload fails the push ends with its error and no finalize call
    has been issued. *)
Theorem push_call_order :
  map up_filename (uploads session) ≡ₚ map basename files →
  length (map descriptor infos) = length files ∧
  length calls = length (uploads session) ∧
  match first_failure (log s1 ++ [init]) calls with
  | None =>
      (∃ r, run = (r, after s1 (init :: calls ++ [finalize]))) ∧
      is_finalize finalize = true ∧
      Forall (λ ev, is_finalize ev = false) (read_events files ++ init :: calls)
  | Some k =>
      (∃ e, upload_failure e ∧ run = (Err e, after s1 (init :: take (S k) calls))) ∧
      Forall (λ ev, is_finalize ev = false)
        (read_events files ++ init :: take (S k) calls)
  end.
Proof using Hparse Hcolon Hkey Hread Hinit Hok Hsession.
  intros Hperm.
  destruct (local_files_names _ _ _ Hread) as [Hnames _].
  assert (Forall (has_local_file infos) (uploads session)) as Hfound.
  { apply Forall_forall. intros u Hu. apply find_fileInfo_named.
    rewrite Hnames, <- Hperm. by apply list_elem_of_fmap_2. }
  split; [by rewrite length_map, <- (length_mapM _ _ _ Hread)|].
  split; [by rewrite length_map|].
  pose proof (upload_all_found infos _ (after s1 [init]) Hfound) as Hup.
  cbv zeta in Hup. change (log (after s1 [init])) with (log s1 ++ [init]) in Hup.
  rewrite push_reaches_uploads. unfold bind at 1 2.
  destruct (first_failure _ _) as [k|].
  - destruct Hup as (e & He & ->). split.
    + exists e. split; [done|]. by rewrite after_after.
    + rewrite take_map. apply calls_are_not_finalize.
  - rewrite Hup. destruct (conclude_run (after (after s1 [init]) calls)) as (r & ->).
    split; [|split; [done|apply calls_are_not_finalize]].
    exists r. by rewrite !after_after.
Qed.

(** C3 (as amended).  A requested file that the session leaves out raises
    no error in the client: when every returned target names a local file
    and the uploads succeed, the push goes on to finalize and its outcome
    is that of finalize, while no upload takes its bytes from a file of
    the omitted name.  The check of the client is the converse one: the
    first returned target that names no local file ends the push with the
    error that bears its name, before its upload and without finalize. *)
Theorem push_skips_omitted_files :
  (∀ omitted,
     omitted ∈ files →
     basename omitted ∉ map up_filename (uploads session) →
     Forall (has_local_file infos) (uploads session) →
     first_failure (log s1 ++ [init]) calls = None →
     run = conclude client ref session (after s1 (init :: calls)) ∧
     ∀ u f, u ∈ uploads session → find_fileInfo infos u = Some f →
            fi_filename f ≠ basename omitted) ∧
  (∀ pre u rest,
     uploads session = pre ++ u :: rest →
     Forall (has_local_file infos) pre →
     find_fileInfo infos u = None →
     first_failure (log s1 ++ [init]) (map (upload_event infos) pre) = None →
     run = (Err (NoLocalFile (up_filename u)),
            after s1 (init :: map (upload_event infos) pre))).
Proof using Hparse Hcolon Hkey Hread Hinit Hok Hsession.
  split.
  - intros omitted _ Hout Hfound Hnone. split.
    + pose proof (upload_all_found infos _ (after s1 [init]) Hfound) as Hup.
      cbv zeta in Hup. change (log (after s1 [init])) with (log s1 ++ [init]) in Hup.
      rewrite Hnone in Hup. rewrite push_reaches_uploads. unfold bind at 1.
      by rewrite Hup, after_after.
    + intros u f Hu [_ Hf]%find_fileInfo_Some Heq. apply Hout.
      rewrite <- Heq, Hf. by apply list_elem_of_fmap_2.
  - intros pre u rest Hsplit Hfound Hmissing Hnone.
    pose proof (upload_all_found infos _ (after s1 [init]) Hfound) as Hup.
    cbv zeta in Hup. change (log (after s1 [init])) with (log s1 ++ [init]) in Hup.
    rewrite Hnone in Hup. rewrite push_reaches_uploads. unfold bind at 1.
    rewrite Hsplit, upload_all_app, Hup. simpl. unfold bind.
    by rewrite upload_one_missing, after_after.
Qed.




End PushRun.

(** With a key and readable files, the phases of a push send the init
    request right after the reads, whatever is answered to it. *)
Lemma push_phases_sends_init `{Platform} (client : PullWeightsClient)
    (ref : ModelRef) (files : list string)
    (itemType description visibility : option string) (s : State)
    (infos : list FileInfo) :
  truthy (apiKey client) = true →
  mapM (local_file (disk s)) files = Some infos →
  ∃ rest,
    log (push_phases client ref files itemType description visibility s).2
    = log s ++ read_events files
      ++ init_event client ref itemType description visibility infos :: rest.
Proof.
  intros Hkey Hread. unfold push_phases, bind at 1.
  rewrite (read_fileInfos_ok _ _ _ Hread). unfold bind at 1.
  unfold pushInit, bind at 1. rewrite requireAuth_with_key by done.
  unfold bind at 1.
  destruct (request_run client
    ("/v1/models/" +:+ encodeURIComponent (org ref) +:+ "/"
     +:+ encodeURIComponent (model ref) +:+ "/push/init")
    (Some (post_json (InitJson
       {| ib_tag := tag ref; ib_type := itemType; ib_description := description;
          ib_visibility := visibility; ib_files := map descriptor infos |})))
    (after s (read_events files))) as (r & -> & _).
  fold (init_event client ref itemType description visibility infos).
  destruct r as [j|e]; [|exists []; simpl; by rewrite <- app_assoc].
  destruct j as [| | | | | | | |session|];
    try (exists []; simpl; by rewrite <- app_assoc).
  simpl. unfold bind at 1.
  destruct (upload_all_sent infos (uploads session)
    (after (after s (read_events files))
       [init_event client ref itemType description visibility infos]))
    as (sent & _ & _ & Hlog & _).
  destruct (upload_all infos (uploads session) _) as [[[]|e] s2]; simpl in Hlog; subst s2.
  - fold (conclude client ref session).
    destruct (conclude_run client ref session Hkey
      (after (after (after s (read_events files))
         [init_event client ref itemType description visibility infos])
         (map (upload_event infos) sent))) as (r & ->).
    eexists. simpl. by rewrite <- !app_assoc.
  - exists (map (upload_event infos) sent). simpl. by rewrite <- !app_assoc.
Qed.

(** C10.  A reference that ends with a colon parses, and its tag is the
    empty string, not ["latest"].  The check of [push] lets it through:
    the push is the three phases run with the empty tag, so that, with a
    key and readable files, the init request it sends carries an empty
    tag. *)
Theorem trailing_colon_gives_empty_tag `{Platform} (client : PullWeightsClient)
    (o n : string) :
  segment o → segment n →
  parseModelRef "org/name:"
    = Ok {| org := "org"; model := "name"; tag := EmptyString |} ∧
  parseModelRef (o +:+ "/" +:+ n +:+ ":")
    = Ok {| org := o; model := n; tag := EmptyString |} ∧
  ∀ files itemType description visibility s,
    push client (o +:+ "/" +:+ n +:+ ":") files itemType description visibility s
    = push_phases client {| org := o; model := n; tag := EmptyString |}
        files itemType description visibility s ∧
    ∀ infos,
      truthy (apiKey client) = true →
      mapM (local_file (disk s)) files = Some infos →
      ∃ rest,
        log (push client (o +:+ "/" +:+ n +:+ ":") files
               itemType description visibility s).2
        = log s ++ read_events files
          ++ init_event client {| org := o; model := n; tag := EmptyString |}
               itemType description visibility infos :: rest.
Proof.
  intros Ho Hn.
  assert (parseModelRef (o +:+ "/" +:+ n +:+ ":")
          = Ok {| org := o; model := n; tag := EmptyString |}) as Hparse.
  { apply (parseModelRef_grammar o n (Some EmptyString) Ho Hn). by intros ? [= <-]. }
  split; [done|]. split; [done|].
  intros files itemType description visibility s.
  assert (push client (o +:+ "/" +:+ n +:+ ":") files itemType description visibility s
          = push_phases client {| org := o; model := n; tag := EmptyString |}
              files itemType description visibility s) as Hpush.
  { unfold push, bind. by rewrite Hparse. }
  split; [done|]. intros infos Hkey Hread. rewrite Hpush.
  by apply push_phases_sends_init.
Qed.

(** * The statements on the concrete platform *)

(** C5, where the claim fails: the reference has two slashes, yet it is
    accepted, the second slash being part of the tag. *)
Lemma parseModelRef_accepts_slash_in_tag :
  ¬ one_slash_two_segments "a/b:c/d" ∧
  parseModelRef "a/b:c/d" = Ok {| org := "a"; model := "b"; tag := "c/d" |}.
Proof. split; [|reflexivity]. intros [Hcount _]. vm_compute in Hcount. discriminate. Qed.

(** C8, where the claim fails: the update without fields of a well-formed
    reference returns normally. *)
Lemma update_without_fields_does_not_throw :
  one_slash_two_segments "acme/resnet" ∧
  update (Demo.client Demo.with_key) Demo.updateModel
    "acme/resnet" None None None None None Demo.start
  = (Ok {| text := "No fields to update. Provide at least one of: "
                   +:+ "description, visibility, framework, license, tags." |},
     Demo.start).
Proof.
  split; [|vm_compute; reflexivity].
  split; [reflexivity|]. by exists "acme", "resnet".
Qed.

(** C3, where the claim fails: the session leaves [config.json] out, the
    push uploads the one returned target, finalizes and succeeds. *)
Lemma push_with_omitted_file_succeeds :
  ("config.json" ∈ map basename Demo.files) ∧
  ("config.json" ∉ map up_filename (uploads Demo.partial_session)) ∧
  Demo.urls (log (@push Demo.with_key (Demo.client Demo.with_key) "acme/partial:v3"
                    Demo.files None None None Demo.start).2)
  = ["https://registry.test/v1/models/acme/partial/push/init";
     "https://blobs.test/put/1";
     "https://registry.test/v1/models/acme/partial/push/finalize"] ∧
  (@push Demo.with_key (Demo.client Demo.with_key) "acme/partial:v3"
     Demo.files None None None Demo.start).1
  = Ok (push_report (H := Demo.with_key)
          {| org := "acme"; model := "partial"; tag := "v3" |} Demo.committed).
Proof.
  split; [|split; [|split]].
  - apply list_elem_of_In. vm_compute. auto.
  - intros Hin%list_elem_of_In. vm_compute in Hin. intuition discriminate.
  - vm_compute. reflexivity.
  - vm_compute. reflexivity.
Qed.

(** The theorems with hypotheses, applied on the concrete platform. *)

Lemma listOrgs_alone_checks_the_key_witness :
  truthy (apiKey (Demo.client Demo.without_key)) = false ∧
  @listOrgs Demo.without_key (Demo.client Demo.without_key) Demo.start
  = (Err AuthenticationRequired, Demo.start).
Proof.
  split; [reflexivity|].
  apply (@listOrgs_alone_checks_the_key Demo.without_key
           (Demo.client Demo.without_key) eq_refl).
Defined.

Lemma update_without_fields_returns_a_notice_witness :
  one_slash_two_segments "acme/resnet" ∧
  (update (Demo.client Demo.with_key) Demo.updateModel
     "acme/resnet" None None None None None Demo.start).2 = Demo.start.
Proof.
  assert (one_slash_two_segments "acme/resnet") as Hwf.
  { split; [reflexivity|]. by exists "acme", "resnet". }
  split; [exact Hwf|].
  by rewrite (@update_without_fields_returns_a_notice Demo.with_key
                (Demo.client Demo.with_key) Demo.updateModel "acme/resnet"
                Demo.start Hwf).
Defined.

Lemma push_without_colon_is_rejected_first_witness :
  includes ":" "acme/resnet" = false ∧
  @push Demo.with_key (Demo.client Demo.with_key) "acme/resnet" Demo.files
    None None None Demo.start
  = (Err ExplicitTagRequired, Demo.start).
Proof.
  split; [reflexivity|].
  destruct (@push_without_colon_is_rejected_first Demo.with_key
              (Demo.client Demo.with_key) "acme/resnet" Demo.files None None None
              Demo.start eq_refl) as (e & Hrun & _ & He).
  rewrite Hrun, He; [reflexivity|].
  split; [reflexivity|]. by exists "acme", "resnet".
Defined.

Lemma parseModelRef_examples_and_rejection_witness :
  ¬ one_slash_two_segments (before_first ":" "acme/resnet/extra:v1") ∧
  parseModelRef "acme/resnet/extra:v1" = Err (InvalidModelRef "acme/resnet/extra:v1").
Proof.
  assert (¬ one_slash_two_segments (before_first ":" "acme/resnet/extra:v1")) as Hno.
  { intros [Hcount _]. vm_compute in Hcount. discriminate. }
  split; [exact Hno|].
  exact (proj1 (proj2 (proj2 (proj2 parseModelRef_examples_and_rejection)) _) Hno).
Defined.

Lemma parseModelRef_roundtrip_witness :
  segment "acme" ∧ segment "resnet" ∧ includes ":" "v2" = false ∧
  ∃ r, parseModelRef "acme/resnet:v2" = Ok r ∧
       org r = "acme" ∧ model r = "resnet" ∧ tag r = "v2" ∧
       reconstruct r = "acme/resnet:v2".
Proof.
  assert (segment "acme") as Ho by (by repeat split).
  assert (segment "resnet") as Hn by (by repeat split).
  split; [exact Ho|]. split; [exact Hn|]. split; [reflexivity|].
  apply (parseModelRef_roundtrip "acme" "resnet" (Some "v2") Ho Hn).
  by intros tg [= <-].
Defined.

Lemma trailing_colon_gives_empty_tag_witness :
  segment "acme" ∧ segment "resnet" ∧
  parseModelRef "acme/resnet:"
  = Ok {| org := "acme"; model := "resnet"; tag := EmptyString |}.
Proof.
  assert (segment "acme") as Ho by (by repeat split).
  assert (segment "resnet") as Hn by (by repeat split).
  split; [exact Ho|]. split; [exact Hn|].
  exact (proj1 (proj2 (@trailing_colon_gives_empty_tag Demo.with_key
           (Demo.client Demo.with_key) "acme" "resnet" Ho Hn))).
Defined.


Lemma push_call_order_witness :
  map up_filename (uploads Demo.session) ≡ₚ map basename Demo.files ∧
  ∃ r, @push Demo.with_key (Demo.client Demo.with_key) "acme/resnet:v3"
         Demo.files None None None Demo.start
       = (r, after (after Demo.start (read_events Demo.files))
               (init_event (H := Demo.with_key) (Demo.client Demo.with_key)
                  Demo.ref_v3 None None None Demo.infos
                :: map (upload_event Demo.infos) (uploads Demo.session)
                ++ [finalize_event (H := Demo.with_key) (Demo.client Demo.with_key)
                      Demo.ref_v3 Demo.session])).
Proof.
  assert (map up_filename (uploads Demo.session) ≡ₚ map basename Demo.files) as Hperm
    by reflexivity.
  split; [exact Hperm|].
  exact (proj1 (proj2 (proj2
    (@push_call_order Demo.with_key (Demo.client Demo.with_key) "acme/resnet:v3"
       Demo.files None None None Demo.start Demo.ref_v3 Demo.infos
       (Demo.ok_answer (JPushInit Demo.session)) Demo.session
       eq_refl eq_refl eq_refl eq_refl eq_refl eq_refl eq_refl Hperm)))).
Defined.

Lemma push_skips_omitted_files_witness :
  ("/models/config.json" ∈ Demo.files) ∧
  (basename "/models/config.json" ∉ map up_filename (uploads Demo.partial_session)) ∧
  @push Demo.with_key (Demo.client Demo.with_key) "acme/partial:v3"
    Demo.files None None None Demo.start
  = conclude (H := Demo.with_key) (Demo.client Demo.with_key) Demo.partial_v3
      Demo.partial_session
      (after (after Demo.start (read_events Demo.files))
         (init_event (H := Demo.with_key) (Demo.client Demo.with_key)
            Demo.partial_v3 None None None Demo.infos
          :: map (upload_event Demo.infos) (uploads Demo.partial_session))).
Proof.
  assert ("/models/config.json" ∈ Demo.files) as Hin.
  { apply list_elem_of_In. vm_compute. auto. }
  assert (basename "/models/config.json"
          ∉ map up_filename (uploads Demo.partial_session)) as Hout.
  { intros H%list_elem_of_In. vm_compute in H. intuition discriminate. }
  split; [exact Hin|]. split; [exact Hout|].
  refine (proj1 (proj1
    (@push_skips_omitted_files Demo.with_key (Demo.client Demo.with_key)
       "acme/partial:v3" Demo.files None None None Demo.start Demo.partial_v3
       Demo.infos (Demo.ok_answer (JPushInit Demo.partial_session))
       Demo.partial_session
       eq_refl eq_refl eq_refl eq_refl eq_refl eq_refl eq_refl)
    "/models/config.json" Hin Hout _ eq_refl)).
  repeat constructor. by eexists.
Defined.


(** * Further properties of the code *)

(** ** [parseModelRef] and the check of [tags] and [update] *)

Lemma split_three_pieces c a b d :
  includes c a = false → includes c b = false →
  ∃ more, split c (a +:+ String c (b +:+ String c d)) = a :: b :: more.
Proof.
  intros Ha Hb. rewrite split_app_sep by done.
  destruct (split_app_sep_ex c b d) as (p & pre & Hs).
  rewrite split_app_sep in Hs by done. rewrite split_app_sep by done.
  by eexists.
Qed.

(** X1.  Whatever [parseModelRef] returns has a non-empty organisation and
    a non-empty name, neither of which contains a slash or a colon, and a
    tag without a colon; and the only error it throws is the one that
    quotes the reference. *)
Theorem parseModelRef_result_is_well_formed (ref : string) :
  match parseModelRef ref with
  | Ok r =>
      org r ≠ EmptyString ∧ model r ≠ EmptyString ∧
      includes "/" (org r) = false ∧ includes "/" (model r) = false ∧
      includes ":" (org r) = false ∧ includes ":" (model r) = false ∧
      includes ":" (tag r) = false
  | Err e => e = InvalidModelRef ref
  end.
Proof.
  destruct (parseModelRef_unfold ref) as (more & Hsplit & ->).
  pose proof (split_pieces ":" ref) as Hpieces. rewrite Hsplit in Hpieces.
  apply Forall_cons in Hpieces as [Hfirst Hmore].
  destruct (split "/" (before_first ":" ref)) as [|p0 [|p1 [|]]] eqn:Hs; try done.
  destruct (falsy p0) eqn:H0; [done|]. destruct (falsy p1) eqn:H1; [done|]. simpl.
  destruct (split_two_pieces _ _ _ _ Hs) as (Hjoin & _ & Hs0 & Hs1).
  rewrite Hjoin, includes_app in Hfirst. simpl in Hfirst.
  apply orb_false_iff in Hfirst as [Hc0 Hc1].
  repeat split; try (by apply falsy_false_iff); try done.
  destruct more as [|t more']; [done|]. by apply Forall_cons in Hmore as [? _].
Qed.

Lemma parseModelRef_segments ref r :
  parseModelRef ref = Ok r →
  segment (org r) ∧ segment (model r) ∧ includes ":" (tag r) = false.
Proof.
  destruct (parseModelRef_unfold ref) as (more & Hsplit & ->).
  pose proof (split_pieces ":" ref) as Hpieces. rewrite Hsplit in Hpieces.
  apply Forall_cons in Hpieces as [Hfirst Hmore].
  destruct (split "/" (before_first ":" ref)) as [|p0 [|p1 [|]]] eqn:Hs; try done.
  destruct (falsy p0) eqn:H0; [done|]. destruct (falsy p1) eqn:H1; [done|]. simpl.
  intros [= <-]. simpl.
  destruct (split_two_pieces _ _ _ _ Hs) as (Hjoin & _ & Hs0 & Hs1).
  rewrite Hjoin, includes_app in Hfirst. simpl in Hfirst.
  apply orb_false_iff in Hfirst as [Hc0 Hc1].
  apply falsy_false_iff in H0, H1. repeat split; try done.
  destruct more as [|t more']; [done|]. by apply Forall_cons in Hmore as [? _].
Qed.

(** X2.  A result of [parseModelRef], written back as [org/model:tag],
    parses to itself. *)
Theorem parseModelRef_reconstruct_is_stable (ref : string) (r : ModelRef) :
  parseModelRef ref = Ok r → parseModelRef (reconstruct r) = Ok r.
Proof.
  intros Hparse. destruct (parseModelRef_segments _ _ Hparse) as (Ho & Hm & Ht).
  destruct r as [o m t]. simpl in *.
  apply (parseModelRef_grammar o m (Some t)); [done|done|]. by intros ? [= <-].
Qed.

(** X3.  Only the text up to a second colon counts: what follows it is
    dropped without an error, and shows at most in the message of the
    error that the shorter reference gets as well. *)
Theorem parseModelRef_ignores_a_second_colon (a b rest : string) :
  includes ":" a = false → includes ":" b = false →
  parseModelRef (a +:+ ":" +:+ b +:+ ":" +:+ rest)
  = match parseModelRef (a +:+ ":" +:+ b) with
    | Ok r => Ok r
    | Err _ => Err (InvalidModelRef (a +:+ ":" +:+ b +:+ ":" +:+ rest))
    end.
Proof.
  intros Ha Hb. unfold parseModelRef.
  change (a +:+ ":" +:+ b +:+ ":" +:+ rest) with (a +:+ String ":" (b +:+ String ":" rest)).
  change (a +:+ ":" +:+ b) with (a +:+ String ":" b).
  destruct (split_three_pieces ":" a b rest Ha Hb) as (more & ->).
  rewrite (split_app_sep ":" a b), (split_no_sep ":" b) by done.
  destruct (split "/" a) as [|p0 [|p1 [|]]]; try done.
  by destruct (falsy p0 || falsy p1).
Qed.

Lemma org_and_name_iff (model_ref o n : string) :
  org_and_name model_ref = Ok (o, n) ↔
  model_ref = o +:+ "/" +:+ n ∧ o ≠ EmptyString ∧ n ≠ EmptyString ∧
  includes "/" o = false ∧ includes "/" n = false.
Proof.
  unfold org_and_name. split.
  - destruct (split "/" model_ref) as [|p0 [|p1 [|]]] eqn:Hs; try done.
    destruct (falsy p0) eqn:H0; [done|]. destruct (falsy p1) eqn:H1; [done|].
    simpl. intros [= <- <-].
    destruct (split_two_pieces _ _ _ _ Hs) as (-> & _ & Hs0 & Hs1).
    repeat split; try done; by apply falsy_false_iff.
  - intros (-> & Ho & Hn & Hos & Hns).
    change (o +:+ "/" +:+ n) with (o +:+ String "/" n).
    rewrite split_app_sep, split_no_sep by done.
    apply falsy_false_iff in Ho, Hn. by rewrite Ho, Hn.
Qed.

(** X4.  The check of [tags] and [update] accepts exactly the strings
    [o/n] with two non-empty parts free of slashes.  It does not know
    tags: a reference with a tag is accepted, the colon and the tag being
    part of the name, where [parseModelRef] separates them. *)
Theorem org_and_name_keeps_the_tag (o n t : string) :
  segment o → segment n → includes "/" t = false →
  (∀ s o' n', org_and_name s = Ok (o', n') ↔
     s = o' +:+ "/" +:+ n' ∧ o' ≠ EmptyString ∧ n' ≠ EmptyString ∧
     includes "/" o' = false ∧ includes "/" n' = false) ∧
  org_and_name (o +:+ "/" +:+ n +:+ ":" +:+ t) = Ok (o, n +:+ ":" +:+ t) ∧
  (includes ":" t = false →
   parseModelRef (o +:+ "/" +:+ n +:+ ":" +:+ t)
   = Ok {| org := o; model := n; tag := t |}).
Proof.
  intros (Ho & Hos & Hoc) (Hn & Hns & Hnc) Ht.
  split; [intros; apply org_and_name_iff|]. split.
  - apply org_and_name_iff. repeat split; try done.
    + by destruct n.
    + change (n +:+ ":" +:+ t) with (n +:+ String ":" t).
      rewrite includes_app. simpl. by rewrite Hns, Ht.
  - intros Htc. apply (parseModelRef_grammar o n (Some t)); [done|done|].
    by intros ? [= <-].
Qed.

(** ** The constructor of the client *)

Lemma strip_trailing_slash_one u :
  strip_trailing_slash (u +:+ "/") = u.
Proof.
  induction u as [|c u IH]; [done|].
  change (String c u +:+ "/") with (String c (u +:+ "/")). simpl.
  rewrite IH. destruct (Ascii.eqb c "/"); [|done]. by destruct u.
Qed.

Lemma strip_trailing_slash_none u c :
  c ≠ "/"%char → strip_trailing_slash (u +:+ String c EmptyString) = u +:+ String c EmptyString.
Proof.
  intros Hc. induction u as [|d u IH].
  - simpl. apply Ascii.eqb_neq in Hc. by rewrite Hc.
  - change (String d u +:+ String c EmptyString) with (String d (u +:+ String c EmptyString)).
    simpl. rewrite IH. destruct (Ascii.eqb d "/"); [|done]. by destruct u.
Qed.

(** X5.  The base address of a new client is the default one when the
    variable is unset or empty; otherwise it is the configured address
    without one final slash (a second final slash stays). *)
Theorem new_client_base_address `{Platform} :
  (truthy PULLWEIGHTS_API_URL = false →
   baseUrl new_PullWeightsClient = "https://api.pullweights.com") ∧
  (∀ u, PULLWEIGHTS_API_URL = Some (u +:+ "/") →
        baseUrl new_PullWeightsClient = u) ∧
  (∀ u c, c ≠ "/"%char → PULLWEIGHTS_API_URL = Some (u +:+ String c EmptyString) →
          baseUrl new_PullWeightsClient = u +:+ String c EmptyString) ∧
  apiKey new_PullWeightsClient = PULLWEIGHTS_API_KEY.
Proof.
  unfold new_PullWeightsClient. simpl. repeat split.
  - by intros ->.
  - intros u ->. assert (truthy (Some (u +:+ "/")) = true) as -> by (by destruct u).
    apply strip_trailing_slash_one.
  - intros u c Hc ->.
    assert (truthy (Some (u +:+ String c EmptyString)) = true) as -> by (by destruct u).
    by apply strip_trailing_slash_none.
Qed.

(** ** What a run logs *)

Section OnlyLogs.
Context {A B : Type} (P : Event → Prop).

Lemma only_logs_ret (a : A) : only_logs P (ret a).
Proof. intros s. exists []. by rewrite after_nil. Qed.

Lemma only_logs_throw (e : Error) : only_logs P (throw (A := A) e).
Proof. intros s. exists []. by rewrite after_nil. Qed.

Lemma only_logs_lift (r : Result A) : only_logs P (lift r).
Proof. destruct r; [apply only_logs_ret|apply only_logs_throw]. Qed.

Lemma only_logs_bind (m : M A) (k : A → M B) :
  only_logs P m → (∀ a, only_logs P (k a)) → only_logs P (bind m k).
Proof.
  intros Hm Hk s. unfold bind. destruct (Hm s) as (es & Hs & Hes).
  destruct (m s) as [[a|e] s']; simpl in Hs; subst s'.
  - destruct (Hk a (after s es)) as (es' & Hs' & Hes').
    exists (es ++ es'). rewrite Hs', after_after. split; [done|by apply Forall_app].
  - by exists es.
Qed.

Lemma only_logs_weaken (Q : Event → Prop) (m : M A) :
  (∀ e, Q e → P e) → only_logs Q m → only_logs P m.
Proof.
  intros HQP Hm s. destruct (Hm s) as (es & Hs & Hes). exists es. split; [done|].
  eapply Forall_impl; [exact Hes|exact HQP].
Qed.

End OnlyLogs.

Lemma only_logs_one {A} (P : Event → Prop) (m : M A) (e : Event) :
  P e → (∀ s, (m s).2 = after s [e]) → only_logs P m.
Proof. intros He Hm s. exists [e]. split; [apply Hm|by constructor]. Qed.

Section LoggedEvents.
Context `{Platform}.

Lemma fetch_logs (P : Event → Prop) url init :
  P (Fetch url init) → only_logs P (fetch url init).
Proof.
  intros HP. apply (only_logs_one _ _ (Fetch url init) HP).
  intros s. unfold fetch. by destruct (network _ _ _).
Qed.

Lemma readFile_logs (P : Event → Prop) path :
  P (ReadFile path) → only_logs P (readFile path).
Proof.
  intros HP. apply (only_logs_one _ _ (ReadFile path) HP).
  intros s. unfold readFile. by destruct (disk s !! path).
Qed.

Lemma stat_size_logs (P : Event → Prop) path :
  P (Stat path) → only_logs P (stat_size path).
Proof.
  intros HP. apply (only_logs_one _ _ (Stat path) HP).
  intros s. unfold stat_size. by destruct (disk s !! path).
Qed.

Lemma requireAuth_logs (P : Event → Prop) this : only_logs P (requireAuth this).
Proof.
  unfold requireAuth. destruct (negb _); [apply only_logs_throw|apply only_logs_ret].
Qed.

Lemma request_logs (P : Event → Prop) this path init :
  P (request_event this path init) → only_logs P (request this path init).
Proof.
  intros HP. apply (only_logs_one _ _ _ HP). intros s.
  by destruct (request_run this path init s) as (r & -> & _).
Qed.

Lemma uploadToS3_logs (P : Event → Prop) url data :
  P (Fetch url (put_octets data)) → only_logs P (uploadToS3 url data).
Proof.
  intros HP. unfold uploadToS3. apply only_logs_bind; [by apply fetch_logs|].
  intros res. destruct (negb _); [apply only_logs_throw|apply only_logs_ret].
Qed.

End LoggedEvents.

Ltac logs_cast :=
  let j := fresh "j" in
  intros j; destruct j; simpl; (apply only_logs_ret || apply only_logs_throw).

Section Appends.
Context {A B : Type} (P : Event → Prop).

Lemma only_logs_appends (m : M A) : only_logs P m → appends P m.
Proof. intros Hm s. destruct (Hm s) as (es & -> & Hes). by exists es. Qed.

Lemma appends_bind (m : M A) (k : A → M B) :
  appends P m → (∀ a, appends P (k a)) → appends P (bind m k).
Proof.
  intros Hm Hk s. unfold bind. destruct (Hm s) as (es & Hs & Hes).
  destruct (m s) as [[a|e] s']; simpl in Hs.
  - destruct (Hk a s') as (es' & Hs' & Hes').
    exists (es ++ es'). rewrite Hs', Hs, app_assoc. split; [done|by apply Forall_app].
  - by exists es.
Qed.

End Appends.

Lemma writeFile_appends `{Platform} (P : Event → Prop) path data :
  P (WriteFile path data) → appends P (writeFile path data).
Proof.
  intros HP s. exists [WriteFile path data]. split; [|by constructor].
  unfold writeFile. by destruct (writeFile_outcome _ _ _ _) as [|[partial|]].
Qed.

Lemma mkdir_logs `{Platform} (P : Event → Prop) path :
  P (Mkdir path) → only_logs P (mkdir path).
Proof.
  intros HP. apply (only_logs_one _ _ (Mkdir path) HP).
  intros s. unfold mkdir. by destruct (mkdir_succeeds _ _ _).
Qed.

Section KeyFacts.
Context `{Platform}.
Variable client : PullWeightsClient.

Local Abbreviation registry_only := (λ e, carries_key e → is_request_to (baseUrl client) e).

Lemma request_event_registry_only path init :
  registry_only (request_event client path init).
Proof. intros _. by eexists _, _. Qed.

Lemma put_octets_without_key data :
  headers (put_octets data) !! "Authorization" = None.
Proof. unfold put_octets. simpl. by rewrite !lookup_insert_ne, lookup_empty. Qed.

Lemma upload_registry_only url data : registry_only (Fetch url (put_octets data)).
Proof.
  intros Hk. change (is_Some (headers (put_octets data) !! "Authorization")) in Hk.
  rewrite put_octets_without_key in Hk. by destruct Hk.
Qed.

Lemma download_registry_only url : registry_only (Fetch url follow_redirects).
Proof. simpl. rewrite lookup_empty. by intros [? ?]. Qed.

Lemma pull_files_appends (P : Event → Prop) destDir files acc :
  (∀ url, P (Fetch url follow_redirects)) → (∀ path data, P (WriteFile path data)) →
  appends P (pull_files destDir files acc).
Proof.
  intros Hf Hw. revert acc. induction files as [|file files IH]; intros acc.
  { apply only_logs_appends, only_logs_ret. }
  simpl. apply appends_bind; [|intros; apply IH].
  unfold pull_file. apply appends_bind.
  { apply only_logs_appends, fetch_logs, Hf. }
  intros res. destruct (negb (ok res)); [apply only_logs_appends, only_logs_throw|].
  destruct (negb _); [apply only_logs_appends, only_logs_throw|].
  apply writeFile_appends, Hw.
Qed.

Lemma read_fileInfos_logs (P : Event → Prop) files :
  (∀ path, P (ReadFile path)) → (∀ path, P (Stat path)) →
  only_logs P (read_fileInfos files).
Proof.
  intros Hr Hs. unfold read_fileInfos. apply only_logs_bind.
  { induction files as [|p files IH]; simpl; [apply only_logs_ret|].
    apply only_logs_bind.
    - intros s. destruct (readFile_logs P p (Hr p) s) as (es & Hes & HP).
      exists es. split; [|done]. by destruct (readFile p s) as [[?|?] ?].
    - intros data. apply only_logs_bind; [exact IH|]. intros; apply only_logs_ret. }
  intros pending. apply only_logs_bind; [|intros; apply only_logs_lift].
  induction pending as [|[p [data|]] pending IH]; simpl; [apply only_logs_ret| |].
  - apply only_logs_bind.
    + intros s. destruct (stat_size_logs P p (Hs p) s) as (es & Hes & HP).
      exists es. split; [|done]. by destruct (stat_size p s) as [[?|?] ?].
    + intros info. apply only_logs_bind; [exact IH|]. intros; apply only_logs_ret.
  - apply only_logs_bind; [exact IH|]. intros; apply only_logs_ret.
Qed.

Lemma upload_all_logs (P : Event → Prop) infos targets :
  (∀ url data, P (Fetch url (put_octets data))) →
  only_logs P (upload_all infos targets).
Proof.
  intros HP. induction targets as [|u targets IH]; simpl; [apply only_logs_ret|].
  apply only_logs_bind; [|intros; exact IH].
  unfold upload_one. destruct (find_fileInfo infos u); [|apply only_logs_throw].
  apply uploadToS3_logs, HP.
Qed.

Lemma push_logs (P : Event → Prop) model_ref files itemType description visibility :
  (∀ path, P (ReadFile path)) → (∀ path, P (Stat path)) →
  (∀ path init, P (request_event client path init)) →
  (∀ url data, P (Fetch url (put_octets data))) →
  only_logs P (push client model_ref files itemType description visibility).
Proof.
  intros Hr Hs Hq Hu. unfold push. apply only_logs_bind; [apply only_logs_lift|].
  intros ref. destruct (_ && _); [apply only_logs_throw|].
  unfold push_phases. apply only_logs_bind; [by apply read_fileInfos_logs|].
  intros infos. apply only_logs_bind.
  { unfold pushInit. apply only_logs_bind; [apply requireAuth_logs|]. intros _.
    apply only_logs_bind; [apply request_logs, Hq|]. logs_cast. }
  intros session. apply only_logs_bind; [by apply upload_all_logs|]. intros _.
  apply only_logs_bind; [|intros; apply only_logs_ret].
  unfold pushFinalize. apply only_logs_bind; [apply requireAuth_logs|]. intros _.
  apply only_logs_bind; [apply request_logs, Hq|]. logs_cast.
Qed.

Lemma pull_appends (P : Event → Prop) model_ref output_dir :
  (∀ path init, P (request_event client path init)) →
  (∀ path, P (Mkdir path)) →
  (∀ url, P (Fetch url follow_redirects)) → (∀ path data, P (WriteFile path data)) →
  appends P (pull client model_ref output_dir).
Proof.
  intros Hq Hm Hf Hw. unfold pull.
  apply appends_bind; [apply only_logs_appends, only_logs_lift|]. intros ref.
  apply appends_bind.
  { apply only_logs_appends. unfold client_pull.
    apply only_logs_bind; [apply requireAuth_logs|]. intros _.
    apply only_logs_bind; [apply request_logs, Hq|]. logs_cast. }
  intros plan. apply appends_bind.
  { apply only_logs_appends, mkdir_logs, Hm. }
  intros _. apply appends_bind; [by apply pull_files_appends|].
  intros; apply only_logs_appends, only_logs_ret.
Qed.

(** X6.  The key travels to the registry only.  Of all the requests that
    [pull] and [push] send, those that carry an [Authorization] header go
    to an address that starts with the base address of the client; the
    downloads of [pull] and the uploads of [push] carry none. *)
Theorem key_is_sent_to_the_registry_only
    (model_ref : string) (output_dir : option string) (files : list string)
    (itemType description visibility : option string) :
  appends registry_only (pull client model_ref output_dir) ∧
  only_logs registry_only (push client model_ref files itemType description visibility) ∧
  (∀ url, ¬ carries_key (Fetch url follow_redirects)) ∧
  (∀ url data, ¬ carries_key (Fetch url (put_octets data))).
Proof.
  split; [|split; [|split]].
  - apply pull_appends; try done.
    + apply request_event_registry_only.
    + apply download_registry_only.
  - apply push_logs; try done.
    + apply request_event_registry_only.
    + apply upload_registry_only.
  - intros url. simpl. rewrite lookup_empty. by intros [? ?].
  - intros url data Hk.
    change (is_Some (headers (put_octets data) !! "Authorization")) in Hk.
    rewrite put_octets_without_key in Hk. by destruct Hk.
Qed.

(** X7.  A push never changes the file system: whatever happens, the disk
    is the one it started from, and no event of its log is a write or the
    creation of a directory. *)
Theorem push_leaves_the_disk_alone
    (model_ref : string) (files : list string)
    (itemType description visibility : option string) (s : State) :
  disk (push client model_ref files itemType description visibility s).2 = disk s ∧
  ∃ es, log (push client model_ref files itemType description visibility s).2
        = log s ++ es ∧
        Forall (λ e, ¬ changes_disk e) es.
Proof.
  destruct (push_logs (λ e, ¬ changes_disk e) model_ref files itemType description
              visibility) with (s := s) as (es & -> & Hes);
    try (unfold request_event; simpl; tauto).
  split; [done|]. by exists es.
Qed.

End KeyFacts.

(** ** Requests to the registry *)

(** X8.  A request to the registry returns a body exactly when the
    network answers with a 2xx status and that body as JSON.  A status
    outside 2xx always gives the error that carries the status, with the
    field [error] of the body as its message if there is one, the text of
    the status if the body is no JSON, and never a body. *)
Theorem request_succeeds_on_2xx_json `{Platform} (this : PullWeightsClient)
    (path : string) (init : option RequestInit) (s : State) :
  (∀ j s', request this path init s = (Ok j, s') ↔
     ∃ res, answer (log s) (request_event this path init) = Resolves res ∧
            ok res = true ∧ res_json res = Some j ∧
            s' = after s [request_event this path init]) ∧
  (∀ res, answer (log s) (request_event this path init) = Resolves res →
          ok res = false →
          request this path init s
          = (Err (RequestFailed (status res) (error_message res)),
             after s [request_event this path init]) ∧
          (∀ msg, res_json res = Some (JError msg) → error_message res = msg) ∧
          (res_json res = None → error_message res = statusText res)).
Proof.
  split.
  - intros j s'. split.
    + unfold request, bind, fetch, answer, request_event.
      destruct (network _ _ _) as [|res]; [done|]. simpl.
      destruct (ok res) eqn:Hok; simpl; [|done].
      destruct (res_json res) as [j'|] eqn:Hj; [|done].
      intros [= <- <-]. by exists res.
    + intros (res & Hn & Hok & Hj & ->). by apply (request_ok this path init s res j).
  - intros res Hn Hok. split; [|split].
    + unfold request, bind, fetch. unfold answer, request_event in Hn.
      by rewrite Hn, Hok.
    + intros msg Hj. unfold error_message. by rewrite Hj.
    + intros Hj. unfold error_message. by rewrite Hj.
Qed.

(** ** Pull *)

Section MorePull.
Context `{Platform}.
Variable client : PullWeightsClient.

(** X9.  A pull that cannot start changes nothing: with a malformed
    reference, or without a key, it throws and the state is the initial
    one, so that no directory is created and nothing is requested. *)
Theorem pull_that_cannot_start_changes_nothing
    (model_ref : string) (output_dir : option string) (s : State) :
  (∀ e, parseModelRef model_ref = Err e →
        pull client model_ref output_dir s = (Err e, s)) ∧
  (∀ ref, parseModelRef model_ref = Ok ref → truthy (apiKey client) = false →
          pull client model_ref output_dir s = (Err AuthenticationRequired, s)).
Proof.
  split.
  - intros e He. unfold pull, bind. by rewrite He.
  - intros ref Hp Hk. unfold pull, bind at 1. rewrite Hp. simpl. unfold bind at 1.
    unfold client_pull, bind at 1. by rewrite requireAuth_without_key.
Qed.




(** X11.  Once the directory is created and the earlier turns have
    completed, a file that the store does not serve with a 2xx status
    stops the pull with the error that names the file and the status; the
    file is not written, nothing of the rest of the plan is fetched, and
    the disk is the one the earlier turns left. *)
Theorem pull_stops_at_a_failed_download
    (model_ref : string) (output_dir : option string) (s : State)
    (ref : ModelRef) (plan : PullResponse) (s0 : State)
    (pre : list PullFile) (file : PullFile) (post : list PullFile)
    (lines : list string) (s1 : State) (res : Response) :
  parseModelRef model_ref = Ok ref →
  client_pull client (org ref) (model ref) (tag ref) s = (Ok plan, s0) →
  pr_files plan = pre ++ file :: post →
  mkdir_succeeds (log s0) (disk s0) (pull_destDir ref output_dir) = true →
  pull_files (pull_destDir ref output_dir) pre []
    (after s0 [Mkdir (pull_destDir ref output_dir)]) = (Ok lines, s1) →
  network (log s1) (download_url file) follow_redirects = Resolves res →
  ok res = false →
  pull client model_ref output_dir s
  = (Err (DownloadFailed (filename file) (status res)),
     after s1 [Fetch (download_url file) follow_redirects]) ∧
  occurs_in (filename file) (message (DownloadFailed (filename file) (status res))) ∧
  occurs_in (pretty (status res))
    (message (DownloadFailed (filename file) (status res))).
Proof.
  intros Hparse Hplan Hfiles Hdir Hpre Hn Hok. split; [|split].
  - rewrite (pull_reaches_file client model_ref output_dir s ref plan s0 pre
               (file :: post) lines s1 Hparse Hplan Hfiles Hdir Hpre).
    simpl. unfold bind, pull_file, bind, fetch.
    by rewrite Hn, Hok.
  - by exists "Failed to download ", (": " +:+ pretty (status res)).
  - exists ("Failed to download " +:+ filename file +:+ ": "), EmptyString.
    simpl. by rewrite append_nil_r, !append_assoc.
Qed.

Lemma pull_file_frame destDir file s path :
  path ≠ path_join destDir (filename file) →
  disk (pull_file destDir file s).2 !! path = disk s !! path.
Proof.
  intros Hne. destruct (pull_file destDir file s) as [[[]|e] s'] eqn:Hrun.
  - apply pull_file_ok_inv in Hrun as (res & _ & _ & _ & ->). simpl.
    by rewrite lookup_insert_ne.
  - simpl.
    apply pull_file_err_inv in Hrun as [(data & _ & _ & [->|[partial ->]])|[_ ->]];
      try done.
    by rewrite lookup_insert_ne.
Qed.

(** X12.  A pull writes under the names of its plan only: every path that
    is not [path_join destDir (filename f)] for a file [f] of the plan
    holds after the pull what it held before, whether the pull succeeds
    or not. *)
Theorem pull_touches_the_files_of_the_plan_only
    (model_ref : string) (output_dir : option string) (s : State) (path : string) :
  (∀ ref plan s0 f,
     parseModelRef model_ref = Ok ref →
     client_pull client (org ref) (model ref) (tag ref) s = (Ok plan, s0) →
     f ∈ pr_files plan →
     path ≠ path_join (pull_destDir ref output_dir) (filename f)) →
  disk (pull client model_ref output_dir s).2 !! path = disk s !! path.
Proof.
  intros Hother. unfold pull, bind at 1.
  destruct (parseModelRef model_ref) as [ref|e] eqn:Hparse; [|done]. simpl.
  unfold bind at 1.
  assert (disk (client_pull client (org ref) (model ref) (tag ref) s).2 = disk s) as Hs0.
  { assert (only_logs (λ _, True) (client_pull client (org ref) (model ref) (tag ref)))
      as Hlogs.
    { unfold client_pull. apply only_logs_bind; [apply requireAuth_logs|]. intros _.
      apply only_logs_bind; [by apply request_logs|]. logs_cast. }
    by destruct (Hlogs s) as (es & -> & _). }
  destruct (client_pull client (org ref) (model ref) (tag ref) s) as [[plan|e] s0]
    eqn:Hplan; simpl in Hs0; [|simpl; by rewrite Hs0].
  specialize (Hother ref plan s0). unfold bind at 1. unfold mkdir.
  assert (∀ files acc s',
    (∀ f, f ∈ files → path ≠ path_join (pull_destDir ref output_dir) (filename f)) →
    disk (pull_files (pull_destDir ref output_dir) files acc s').2 !! path
    = disk s' !! path) as Hloop.
  { induction files as [|file files IH]; intros acc s' Hfiles; [done|].
    simpl. unfold bind.
    pose proof (pull_file_frame (pull_destDir ref output_dir) file s' path) as Hone.
    destruct (pull_file _ file s') as [[[]|e] s2]; simpl in Hone.
    - rewrite IH, Hone; [done| |]; intros; apply Hfiles; by constructor.
    - apply Hone, Hfiles. by left. }
  destruct (mkdir_succeeds _ _ _); [|simpl; by rewrite Hs0].
  unfold bind.
  pose proof (Hloop (pr_files plan) []
    {| log := log s0 ++ [Mkdir (pull_destDir ref output_dir)]; disk := disk s0 |})
    as Hrun.
  destruct (pull_files _ _ _ _) as [[lines|e] s2]; simpl in *;
    rewrite Hrun, ?Hs0; try done; intros; by apply Hother.
Qed.

End MorePull.

(** ** Push *)

Section MorePush.
Context `{Platform}.
Variable client : PullWeightsClient.

Lemma finish_reads_run d files :
  ∀ s, disk s = d →
  finish_reads (map (λ p, (p, d !! p)) files) s
  = (Ok (map (λ p, from_option Ok (Err (IoError p)) (local_file d p)) files),
     after s (map Stat (filter (λ p, is_Some (d !! p)) files))).
Proof.
  induction files as [|p files IH]; intros s Hd.
  { simpl. unfold ret. by rewrite after_nil. }
  simpl. unfold local_file. unfold Buffer in *.
  destruct (d !! p) as [data|] eqn:Hlook.
  - unfold bind, stat_size. rewrite Hd. unfold Buffer. rewrite Hlook, IH by done.
    rewrite filter_cons_True by (simpl; rewrite Hlook; eauto).
    unfold ret, after. simpl. by rewrite <- app_assoc, Hd.
  - unfold bind. rewrite IH by done.
    rewrite filter_cons_False by (simpl; rewrite Hlook; by intros [? ?]). done.
Qed.

Lemma all_settled_first_error d pre p post infos :
  mapM (local_file d) pre = Some infos → local_file d p = None →
  all_settled (map (λ p, from_option Ok (Err (IoError p)) (local_file d p))
                 (pre ++ p :: post))
  = Err (IoError p).
Proof.
  intros Hpre%mapM_Some Hp. induction Hpre as [|q info pre infos Hq _ IH]; simpl.
  - by rewrite Hp.
  - rewrite Hq. simpl. by rewrite IH.
Qed.

Lemma push_first_missing_file
    (model_ref : string) (itemType description visibility : option string)
    (s : State) (ref : ModelRef)
    (pre : list string) (p : string) (post : list string) (infos : list FileInfo) :
  parseModelRef model_ref = Ok ref →
  includes ":" model_ref = true →
  mapM (local_file (disk s)) pre = Some infos →
  disk s !! p = None →
  push client model_ref (pre ++ p :: post) itemType description visibility s
  = (Err (IoError p),
     after s (map ReadFile (pre ++ p :: post)
              ++ map Stat (filter (λ q, is_Some (disk s !! q)) (pre ++ p :: post)))).
Proof.
  intros Hparse Hcolon Hpre Hp.
  unfold push, bind at 1. rewrite Hparse. unfold lift, ret. cbv beta iota.
  rewrite Hcolon, andb_false_r. unfold push_phases, bind at 1.
  unfold read_fileInfos, bind at 1 2. rewrite issue_reads_run.
  rewrite (finish_reads_run (disk s)) by done.
  assert (local_file (disk s) p = None) as Hnone.
  { unfold local_file. unfold Buffer in *. by rewrite Hp. }
  rewrite (all_settled_first_error _ _ _ _ infos) by done.
  simpl. by rewrite after_after.
Qed.

Lemma first_missing_file (d : gmap string Buffer) files :
  Exists (λ p, d !! p = None) files →
  ∃ pre q post infos,
    files = pre ++ q :: post ∧ mapM (local_file d) pre = Some infos ∧ d !! q = None.
Proof.
  induction files as [|p files IH]; intros Hex; [by apply Exists_nil in Hex|].
  destruct (d !! p) as [data|] eqn:Hp.
  - apply Exists_cons in Hex as [Hex|Hex]; [congruence|].
    destruct (IH Hex) as (pre & q & post & infos & -> & Hpre & Hq).
    exists (p :: pre), q, post. eexists. split; [done|]. split; [|done].
    apply mapM_Some. apply mapM_Some in Hpre. constructor; [|exact Hpre].
    unfold local_file. unfold Buffer in *. by rewrite Hp.
  - by exists [], p, files, [].
Qed.

(** X13.  A push reads its files before it talks to anyone.  If one of
    them is missing, the push throws the read error of a missing file,
    with or without a key, and its log holds no request. *)
Theorem push_stops_at_a_missing_file
    (model_ref : string) (files : list string)
    (itemType description visibility : option string)
    (s : State) (ref : ModelRef) (p : string) :
  parseModelRef model_ref = Ok ref →
  includes ":" model_ref = true →
  p ∈ files → disk s !! p = None →
  ∃ q es,
    q ∈ files ∧ disk s !! q = None ∧
    push client model_ref files itemType description visibility s
    = (Err (IoError q), after s es) ∧
    Forall (λ e, ∀ url init, e ≠ Fetch url init) es.
Proof.
  intros Hparse Hcolon Hin Hp.
  destruct (first_missing_file (disk s) files) as (pre & q & post & infos & -> & Hpre & Hq).
  { apply Exists_exists. by exists p. }
  exists q. eexists. split; [apply elem_of_app; right; by left|]. split; [done|].
  split; [by apply (push_first_missing_file _ _ _ _ _ ref _ _ _ infos)|].
  apply Forall_app. split; apply Forall_forall; intros e (x & -> & _)%list_elem_of_fmap;
    by intros.
Qed.

(** X14.  Without a key a push of readable files still reads and hashes
    them all, and only then fails with the authentication error; no
    request is sent. *)
Theorem push_without_key_reads_first
    (model_ref : string) (files : list string)
    (itemType description visibility : option string)
    (s : State) (ref : ModelRef) (infos : list FileInfo) :
  parseModelRef model_ref = Ok ref →
  includes ":" model_ref = true →
  truthy (apiKey client) = false →
  mapM (local_file (disk s)) files = Some infos →
  push client model_ref files itemType description visibility s
  = (Err AuthenticationRequired, after s (read_events files)).
Proof.
  intros Hparse Hcolon Hkey Hread.
  unfold push, bind at 1. rewrite Hparse. unfold lift, ret. cbv beta iota.
  rewrite Hcolon, andb_false_r. unfold push_phases, bind at 1.
  rewrite (read_fileInfos_ok _ _ _ Hread). unfold bind at 1.
  unfold pushInit, bind at 1. by rewrite requireAuth_without_key.
Qed.

Lemma request_refused path init s res :
  answer (log s) (request_event client path init) = Resolves res → ok res = false →
  request client path init s
  = (Err (RequestFailed (status res) (error_message res)),
     after s [request_event client path init]).
Proof.
  intros Hn Hok. unfold request, bind, fetch. unfold answer, request_event in Hn.
  by rewrite Hn, Hok.
Qed.

(** X15.  When the registry refuses the init request, the push ends with
    the error that carries the status of the answer; nothing is uploaded
    and no finalize call is made. *)
Theorem push_stops_when_init_is_refused
    (model_ref : string) (files : list string)
    (itemType description visibility : option string)
    (s : State) (ref : ModelRef) (infos : list FileInfo) (res : Response) :
  parseModelRef model_ref = Ok ref →
  includes ":" model_ref = true →
  truthy (apiKey client) = true →
  mapM (local_file (disk s)) files = Some infos →
  answer (log (after s (read_events files)))
    (init_event client ref itemType description visibility infos) = Resolves res →
  ok res = false →
  push client model_ref files itemType description visibility s
  = (Err (RequestFailed (status res) (error_message res)),
     after s (read_events files
              ++ [init_event client ref itemType description visibility infos])).
Proof.
  intros Hparse Hcolon Hkey Hread Hinit Hok.
  unfold push, bind at 1. rewrite Hparse. unfold lift, ret. cbv beta iota.
  rewrite Hcolon, andb_false_r. unfold push_phases, bind at 1.
  rewrite (read_fileInfos_ok _ _ _ Hread). unfold bind at 1.
  unfold pushInit, bind at 1. rewrite requireAuth_with_key by done.
  unfold bind at 1.
  rewrite (request_refused _ _ _ res) by done. by rewrite after_after.
Qed.

End MorePush.

(** ** Push: the bytes that are sent

    The setting is that of the section on the whole run: a push whose
    reference parses and carries a colon, sent with a key, whose files
    are all on the disk, and whose init request the registry answers with
    a session. *)

Section PushedBytes.
Context `{Platform}.
Variables (client : PullWeightsClient) (model_ref : string) (files : list string).
Variables (itemType description visibility : option string) (s : State).
Variables (ref : ModelRef) (infos : list FileInfo).
Variables (res : Response) (session : PushInitResponse).

Local Abbreviation s1 := (after s (read_events files)).
Local Abbreviation init := (init_event client ref itemType description visibility infos).
Local Abbreviation run := (push client model_ref files itemType description visibility s).

Hypothesis Hparse : parseModelRef model_ref = Ok ref.
Hypothesis Hcolon : includes ":" model_ref = true.
Hypothesis Hkey : truthy (apiKey client) = true.
Hypothesis Hread : mapM (local_file (disk s)) files = Some infos.
Hypothesis Hinit : answer (log s1) init = Resolves res.
Hypothesis Hok : ok res = true.
Hypothesis Hsession : res_json res = Some (JPushInit session).



End PushedBytes.

(** ** The tools [update], [tags], [inspect] and [ls] *)

Lemma set_if_defined_lookup {A} key (inj : A → UpdateValue) v b k :
  set_if_defined key inj v b !! k
  = match v with
    | Some x => if decide (key = k) then Some (inj x) else b !! k
    | None => b !! k
    end.
Proof. unfold set_if_defined. destruct v; [apply lookup_insert|done]. Qed.

(** X18.  An [update] with a malformed reference throws without calling
    the client.  With a well-formed one and at least one field supplied,
    an empty string included, it calls [updateModel] once, with a body
    that holds the supplied fields under their names and nothing else. *)
Theorem update_sends_the_supplied_fields `{Platform}
    (client : PullWeightsClient)
    (updateModel : PullWeightsClient → string → string
                   → gmap string UpdateValue → M UpdateResponse)
    (model_ref : string)
    (description visibility framework license : option string)
    (tags : option (list string)) (s : State) :
  (∀ e, org_and_name model_ref = Err e →
        update client updateModel model_ref description visibility framework
          license tags s = (Err e, s)) ∧
  (∀ o n, org_and_name model_ref = Ok (o, n) →
     is_Some description ∨ is_Some visibility ∨ is_Some framework
       ∨ is_Some license ∨ is_Some tags →
     ∃ body : gmap string UpdateValue,
       body !! "description" = VString <$> description ∧
       body !! "visibility" = VString <$> visibility ∧
       body !! "framework" = VString <$> framework ∧
       body !! "license" = VString <$> license ∧
       body !! "tags" = VStrings <$> tags ∧
       (∀ k, is_Some (body !! k) →
             k ∈ ["description"; "visibility"; "framework"; "license"; "tags"]) ∧
       update client updateModel model_ref description visibility framework
         license tags s
       = bind (updateModel client o n body)
              (λ res, ret {| text := "Updated " +:+ o +:+ "/" +:+ n +:+ ": "
                                     +:+ ur_message res |}) s).
Proof.
  split.
  - intros e He. unfold update, bind. by rewrite He.
  - intros o n Hon Hsome.
    set (body := set_if_defined "tags" VStrings tags
      (set_if_defined "license" VString license
        (set_if_defined "framework" VString framework
          (set_if_defined "visibility" VString visibility
            (set_if_defined "description" VString description ∅))))).
    assert (∀ k, body !! k
      = if decide ("tags" = k) then VStrings <$> tags
        else if decide ("license" = k) then VString <$> license
        else if decide ("framework" = k) then VString <$> framework
        else if decide ("visibility" = k) then VString <$> visibility
        else if decide ("description" = k) then VString <$> description
        else None) as Hlook.
    { intros k. unfold body. rewrite !set_if_defined_lookup, lookup_empty.
      destruct tags, license, framework, visibility, description;
        repeat case_decide; simplify_eq; done. }
    exists body. rewrite !Hlook. repeat split; try done.
    + intros k. rewrite Hlook. intros Hk. repeat case_decide; subst;
        repeat (first [apply list_elem_of_here | apply list_elem_of_further]).
      by destruct Hk.
    + unfold update, bind at 1. rewrite Hon. simpl. fold body.
      destruct (size body =? 0)%nat eqn:Hsize; [|done].
      apply Nat.eqb_eq, map_size_empty_inv in Hsize.
      assert (∀ k, body !! k = None) as Hnone by (intros; by rewrite Hsize, lookup_empty).
      destruct Hsome as [[x Hx]|[[x Hx]|[[x Hx]|[[x Hx]|[x Hx]]]]]; subst.
      * specialize (Hnone "description"). by rewrite Hlook in Hnone.
      * specialize (Hnone "visibility"). by rewrite Hlook in Hnone.
      * specialize (Hnone "framework"). by rewrite Hlook in Hnone.
      * specialize (Hnone "license"). by rewrite Hlook in Hnone.
      * specialize (Hnone "tags"). by rewrite Hlook in Hnone.
Qed.

Section ReadOnlyTools.
Context `{Platform}.
Variable client : PullWeightsClient.
Variable JSON_stringify : gmap string string → string.

Lemma listTags_run o n s :
  ∃ r, listTags client o n s
       = (r, after s [request_event client
                        ("/v1/models/" +:+ encodeURIComponent o +:+ "/"
                         +:+ encodeURIComponent n +:+ "/tags") None]) ∧
       r ≠ Err AuthenticationRequired.
Proof. apply request_then_cast. cast_is_pure. Qed.

Lemma getManifest_run o n t s :
  ∃ r, getManifest client o n t s
       = (r, after s [request_event client
                        ("/v1/models/" +:+ encodeURIComponent o +:+ "/"
                         +:+ encodeURIComponent n +:+ "/manifests/"
                         +:+ encodeURIComponent t) None]) ∧
       r ≠ Err AuthenticationRequired.
Proof. apply request_then_cast. cast_is_pure. Qed.

(** X19.  The tool [tags] throws on a malformed reference before any
    request.  Otherwise it sends one request, with or without a key, for
    the organisation and the name that the slash separates: a tag written
    after the name is part of the name requested.  An empty answer gives
    the text that says so. *)
Theorem tags_sends_one_request (model_ref : string) (s : State) :
  (∀ e, org_and_name model_ref = Err e → tags client model_ref s = (Err e, s)) ∧
  (∀ o n, org_and_name model_ref = Ok (o, n) →
     let sent := request_event client
                   ("/v1/models/" +:+ encodeURIComponent o +:+ "/"
                    +:+ encodeURIComponent n +:+ "/tags") None in
     (∃ r, tags client model_ref s = (r, after s [sent]) ∧
           r ≠ Err AuthenticationRequired) ∧
     (∀ res, answer (log s) sent = Resolves res → ok res = true →
             res_json res = Some (JTags []) →
             tags client model_ref s
             = (Ok {| text := "No tags found for " +:+ model_ref +:+ "." |},
                after s [sent]))).
Proof.
  split.
  - intros e He. unfold tags, bind. by rewrite He.
  - intros o n Hon sent. split.
    + unfold tags, bind at 1. rewrite Hon. simpl. unfold bind.
      destruct (listTags_run o n s) as (r & Hrun & Hr).
      fold sent in Hrun. rewrite Hrun. destruct r as [ts|e].
      * destruct (length ts =? 0)%nat; by eexists.
      * exists (Err e). split; [done|]. intros [= ->]. by apply Hr.
    + intros res Hn Hok Hj. unfold tags, bind at 1. rewrite Hon. simpl.
      unfold bind at 1. unfold listTags, bind at 1.
      erewrite request_ok; [|exact Hn|exact Hok|exact Hj]. done.
Qed.

(** X20.  The tool [inspect] throws on a malformed reference before any
    request.  Otherwise it sends one request, with or without a key, for
    the manifest of the parsed organisation, name and tag, the tag being
    ["latest"] when the reference has no colon. *)
Theorem inspect_sends_one_request (model_ref : string) (s : State) :
  (∀ e, parseModelRef model_ref = Err e →
        inspect client JSON_stringify model_ref s = (Err e, s)) ∧
  (∀ ref, parseModelRef model_ref = Ok ref →
     (∃ r, inspect client JSON_stringify model_ref s
           = (r, after s [request_event client
                            ("/v1/models/" +:+ encodeURIComponent (org ref) +:+ "/"
                             +:+ encodeURIComponent (model ref) +:+ "/manifests/"
                             +:+ encodeURIComponent (tag ref)) None]) ∧
           r ≠ Err AuthenticationRequired) ∧
     (includes ":" model_ref = false → tag ref = "latest")).
Proof.
  split.
  - intros e He. unfold inspect, bind. by rewrite He.
  - intros ref Hparse. split.
    + unfold inspect, bind at 1. rewrite Hparse. simpl. unfold bind.
      destruct (getManifest_run (org ref) (model ref) (tag ref) s) as (r & -> & Hr).
      destruct r as [m|e]; [by eexists|].
      exists (Err e). split; [done|]. intros [= ->]. by apply Hr.
    + intros Hc. destruct (parseModelRef_no_colon _ Hc) as [He|(r & Hr & Ht)];
        congruence.
Qed.

(** X21.  The tools [ls], [tags] and [inspect] read only: whatever their
    arguments and whatever the network answers, they leave the disk as it
    is and log nothing but requests to addresses that start with the base
    address of the client. *)
Theorem listing_tools_only_query_the_registry
    (o : option string) (model_ref : string) :
  only_logs (is_request_to (baseUrl client)) (ls client o) ∧
  only_logs (is_request_to (baseUrl client)) (tags client model_ref) ∧
  only_logs (is_request_to (baseUrl client)) (inspect client JSON_stringify model_ref).
Proof.
  assert (∀ path init, is_request_to (baseUrl client) (request_event client path init))
    as Hreq by (intros; by eexists _, _).
  split; [|split].
  - unfold ls. destruct (truthy o).
    + apply only_logs_bind.
      * unfold listModels. apply only_logs_bind; [apply request_logs, Hreq|]. logs_cast.
      * intros models. destruct (_ =? _)%nat; apply only_logs_ret.
    + apply only_logs_bind.
      * unfold listOrgs. apply only_logs_bind; [apply requireAuth_logs|]. intros _.
        apply only_logs_bind; [apply request_logs, Hreq|]. logs_cast.
      * intros orgs. destruct (_ =? _)%nat; apply only_logs_ret.
  - unfold tags. apply only_logs_bind; [apply only_logs_lift|]. intros on.
    apply only_logs_bind.
    + unfold listTags. apply only_logs_bind; [apply request_logs, Hreq|]. logs_cast.
    + intros ts. destruct (_ =? _)%nat; apply only_logs_ret.
  - unfold inspect. apply only_logs_bind; [apply only_logs_lift|]. intros ref.
    apply only_logs_bind; [|intros; apply only_logs_ret].
    unfold getManifest. apply only_logs_bind; [apply request_logs, Hreq|]. logs_cast.
Qed.

End ReadOnlyTools.

(** ** [formatBytes] *)

Lemma pretty_one_digit (m : N) :
  (m < 10)%N → Format.zeros (1 - String.length (pretty m)) +:+ pretty m = pretty m.
Proof.
  intros Hm. rewrite <- (N2Nat.id m). assert (N.to_nat m < 10) as Hlt by lia.
  revert Hlt. generalize (N.to_nat m). clear. intros k Hk.
  do 10 (destruct k as [|k]; [vm_compute; reflexivity|]). lia.
Qed.

Lemma pretty_two_digits (m : N) :
  (m < 100)%N →
  Format.zeros (2 - String.length (pretty m)) +:+ pretty m
  = if (m <? 10)%N then "0" +:+ pretty m else pretty m.
Proof.
  intros Hm. rewrite <- (N2Nat.id m). assert (N.to_nat m < 100) as Hlt by lia.
  revert Hlt. generalize (N.to_nat m). clear. intros k Hk.
  do 100 (destruct k as [|k]; [vm_compute; reflexivity|]). lia.
Qed.

Lemma toFixed_nearest (digits : nat) (num den : N) :
  (0 < den)%N →
  let scale := (10 ^ N.of_nat digits)%N in
  let n := ((2 * num * scale + den) / (2 * den))%N in
  (2 * den * n ≤ 2 * num * scale + den < 2 * den * (n + 1))%N ∧
  Format.toFixed digits num den
  = pretty (n / scale)%N +:+ "."
    +:+ Format.zeros (digits - String.length (pretty (n mod scale)%N))
    +:+ pretty (n mod scale)%N.
Proof.
  intros Hden scale n. split; [|done]. split.
  - apply N.Div0.mul_div_le.
  - rewrite N.add_1_r. apply N.mul_succ_div_gt. lia.
Qed.

(** X22.  For a byte count below [2 ^ 53], [formatBytes] prints counts
    under 1024 as they are, and otherwise the count divided by the
    largest of 1024, 1024², 1024³ that does not exceed it, rounded to
    the nearest tenth (hundredth for GB), halves upwards, with exactly
    one (two) digits after the point. *)
Theorem formatBytes_rounds_to_nearest (bytes : N) :
  (bytes < 2 ^ 53)%N →
  ((bytes < 1024)%N → Format.formatBytes bytes = pretty bytes +:+ " B") ∧
  ((1024 ≤ bytes < 1024 * 1024)%N → ∃ n : N,
     (2048 * n ≤ 20 * bytes + 1024 < 2048 * (n + 1))%N ∧ (10 ≤ n ≤ 10240)%N ∧
     Format.formatBytes bytes
     = pretty (n / 10)%N +:+ "." +:+ pretty (n mod 10)%N +:+ " KB") ∧
  ((1024 * 1024 ≤ bytes < 1024 * 1024 * 1024)%N → ∃ n : N,
     (2097152 * n ≤ 20 * bytes + 1048576 < 2097152 * (n + 1))%N ∧
     (10 ≤ n ≤ 10240)%N ∧
     Format.formatBytes bytes
     = pretty (n / 10)%N +:+ "." +:+ pretty (n mod 10)%N +:+ " MB") ∧
  ((1024 * 1024 * 1024 ≤ bytes)%N → ∃ n : N,
     (2147483648 * n ≤ 200 * bytes + 1073741824 < 2147483648 * (n + 1))%N ∧
     (100 ≤ n)%N ∧
     Format.formatBytes bytes
     = pretty (n / 100)%N +:+ "."
       +:+ (if (n mod 100 <? 10)%N then "0" +:+ pretty (n mod 100)%N
            else pretty (n mod 100)%N)
       +:+ " GB").
Proof.
  intros _. unfold Format.formatBytes. repeat split.
  - intros Hb. apply N.ltb_lt in Hb. by rewrite Hb.
  - intros [Hlo Hhi].
    destruct (N.ltb_spec bytes 1024); [lia|]. destruct (N.ltb_spec bytes (1024 * 1024)); [|lia].
    destruct (toFixed_nearest 1 bytes 1024 ltac:(lia)) as [Hn ->].
    change (10 ^ N.of_nat 1)%N with 10%N in *.
    set (n := ((2 * bytes * 10 + 1024) / (2 * 1024))%N) in *.
    exists n. split; [lia|]. split; [lia|].
    rewrite (pretty_one_digit (n mod 10)) by (apply N.mod_lt; lia).
    by rewrite !append_assoc.
  - intros [Hlo Hhi].
    destruct (N.ltb_spec bytes 1024); [lia|]. destruct (N.ltb_spec bytes (1024 * 1024)); [lia|].
    destruct (N.ltb_spec bytes (1024 * 1024 * 1024)); [|lia].
    destruct (toFixed_nearest 1 bytes (1024 * 1024) ltac:(lia)) as [Hn ->].
    change (10 ^ N.of_nat 1)%N with 10%N in *.
    set (n := ((2 * bytes * 10 + 1024 * 1024) / (2 * (1024 * 1024)))%N) in *.
    exists n. split; [lia|]. split; [lia|].
    rewrite (pretty_one_digit (n mod 10)) by (apply N.mod_lt; lia).
    by rewrite !append_assoc.
  - intros Hlo.
    destruct (N.ltb_spec bytes 1024); [lia|]. destruct (N.ltb_spec bytes (1024 * 1024)); [lia|].
    destruct (N.ltb_spec bytes (1024 * 1024 * 1024)); [lia|].
    destruct (toFixed_nearest 2 bytes (1024 * 1024 * 1024) ltac:(lia)) as [Hn ->].
    change (10 ^ N.of_nat 2)%N with 100%N in *.
    set (n := ((2 * bytes * 100 + 1024 * 1024 * 1024) / (2 * (1024 * 1024 * 1024)))%N) in *.
    exists n. split; [lia|]. split; [lia|].
    rewrite (pretty_two_digits (n mod 100)) by (apply N.mod_lt; lia).
    by rewrite !append_assoc.
Qed.

(** X23.  Just below a power of 1024 the rounding reaches the next unit
    without changing the suffix: such counts are shown as [1024.0 KB] and
    [1024.0 MB], not as [1.0 MB] and [1.0 GB]. *)
Theorem formatBytes_shows_1024_below_a_boundary (bytes : N) :
  ((1048525 ≤ bytes < 1048576)%N → Format.formatBytes bytes = "1024.0 KB") ∧
  ((1073689396 ≤ bytes < 1073741824)%N → Format.formatBytes bytes = "1024.0 MB").
Proof.
  split; intros [Hlo Hhi]; unfold Format.formatBytes.
  - destruct (N.ltb_spec bytes 1024); [lia|]. destruct (N.ltb_spec bytes (1024 * 1024)); [|lia].
    destruct (toFixed_nearest 1 bytes 1024 ltac:(lia)) as [Hn ->].
    change (10 ^ N.of_nat 1)%N with 10%N in *.
    assert (((2 * bytes * 10 + 1024) / (2 * 1024))%N = 10240%N) as -> by lia.
    vm_compute. reflexivity.
  - destruct (N.ltb_spec bytes 1024); [lia|]. destruct (N.ltb_spec bytes (1024 * 1024)); [lia|].
    destruct (N.ltb_spec bytes (1024 * 1024 * 1024)); [|lia].
    destruct (toFixed_nearest 1 bytes (1024 * 1024) ltac:(lia)) as [Hn ->].
    change (10 ^ N.of_nat 1)%N with 10%N in *.
    assert (((2 * bytes * 10 + 1024 * 1024) / (2 * (1024 * 1024)))%N = 10240%N) as -> by lia.
    vm_compute. reflexivity.
Qed.

(** * The further properties on the concrete platforms *)

Lemma parseModelRef_reconstruct_is_stable_witness :
  parseModelRef "acme/resnet" = Ok {| org := "acme"; model := "resnet"; tag := "latest" |} ∧
  parseModelRef "acme/resnet:latest"
  = Ok {| org := "acme"; model := "resnet"; tag := "latest" |}.
Proof.
  split; [reflexivity|].
  exact (parseModelRef_reconstruct_is_stable "acme/resnet"
           {| org := "acme"; model := "resnet"; tag := "latest" |} eq_refl).
Defined.

Lemma parseModelRef_ignores_a_second_colon_witness :
  includes ":" "acme/resnet" = false ∧ includes ":" "v1" = false ∧
  parseModelRef "acme/resnet:v1:extra"
  = Ok {| org := "acme"; model := "resnet"; tag := "v1" |}.
Proof.
  split; [reflexivity|]. split; [reflexivity|].
  exact (parseModelRef_ignores_a_second_colon "acme/resnet" "v1" "extra" eq_refl eq_refl).
Defined.

Lemma org_and_name_keeps_the_tag_witness :
  segment "acme" ∧ segment "resnet" ∧ includes "/" "v2" = false ∧
  org_and_name "acme/resnet:v2" = Ok ("acme", "resnet:v2").
Proof.
  assert (segment "acme") as Ho by (by repeat split).
  assert (segment "resnet") as Hn by (by repeat split).
  split; [exact Ho|]. split; [exact Hn|]. split; [reflexivity|].
  exact (proj1 (proj2 (org_and_name_keeps_the_tag "acme" "resnet" "v2" Ho Hn eq_refl))).
Defined.

Lemma new_client_base_address_witness :
  @PULLWEIGHTS_API_URL Demo.with_key = Some "https://registry.test/" ∧
  baseUrl (@new_PullWeightsClient Demo.with_key) = "https://registry.test".
Proof.
  split; [reflexivity|].
  exact (proj1 (proj2 (@new_client_base_address Demo.with_key))
           "https://registry.test" eq_refl).
Defined.

Lemma request_succeeds_on_2xx_json_witness :
  @request Demo.with_key (Demo.client Demo.with_key)
    "/v1/models/acme/resnet/pull/v2" None Demo.start
  = (Ok (JPull Demo.plan),
     after Demo.start
       [request_event (Demo.client Demo.with_key) "/v1/models/acme/resnet/pull/v2" None]).
Proof.
  apply (proj1 (@request_succeeds_on_2xx_json Demo.with_key (Demo.client Demo.with_key)
                  "/v1/models/acme/resnet/pull/v2" None Demo.start)).
  exists (Demo.ok_answer (JPull Demo.plan)). by repeat split.
Defined.

Lemma pull_that_cannot_start_changes_nothing_witness :
  truthy (apiKey (Demo.client Demo.without_key)) = false ∧
  @pull Demo.without_key (Demo.client Demo.without_key) "acme/resnet:v2" None Demo.start
  = (Err AuthenticationRequired, Demo.start).
Proof.
  split; [reflexivity|].
  exact (proj2 (@pull_that_cannot_start_changes_nothing Demo.without_key
                  (Demo.client Demo.without_key) "acme/resnet:v2" None Demo.start)
           {| org := "acme"; model := "resnet"; tag := "v2" |} eq_refl eq_refl).
Defined.


(** A plan whose first file is named [sub/a.txt], on a file system where
    the directory of the model has no directory [sub]: [pull] creates the
    directory of the model only, the file is served intact, its write is
    rejected, and the pull ends with the error of the file system; nothing
    is on the disk and the second file is not fetched. *)
Lemma pull_into_a_missing_directory :
  @pull Demo2.platform Demo2.client "acme/nested:v1" None Demo.start
  = (Err (IoError "/work/pullweights_models/acme/nested/v1/sub/a.txt"),
     {| log :=
          [request_event Demo2.client "/v1/models/acme/nested/pull/v1" None;
           Mkdir "/work/pullweights_models/acme/nested/v1";
           Fetch "https://blobs.test/get/a" follow_redirects;
           WriteFile "/work/pullweights_models/acme/nested/v1/sub/a.txt"
             (Demo.bytes "AAA")];
        disk := disk Demo.start |}).
Proof. vm_compute. reflexivity. Qed.

Lemma pull_stops_at_a_failed_download_witness :
  (@pull Demo2.platform Demo2.client "acme/broken:v1" None Demo.start).1
  = Err (DownloadFailed "gone.bin" 404).
Proof.
  edestruct (@pull_stops_at_a_failed_download Demo2.platform Demo2.client
               "acme/broken:v1" None Demo.start Demo2.broken_v1 Demo2.broken_plan)
    with (pre := [Demo2.file_a]) (file := Demo2.file_gone) (post := @nil PullFile)
    as (Hrun & _).
  - reflexivity.
  - vm_compute. reflexivity.
  - reflexivity.
  - reflexivity.
  - vm_compute. reflexivity.
  - vm_compute. reflexivity.
  - reflexivity.
  - rewrite Hrun. reflexivity.
Defined.

Lemma pull_touches_the_files_of_the_plan_only_witness :
  disk (@pull Demo.with_key (Demo.client Demo.with_key) "acme/resnet:v2" None
          Demo.start).2 !! "/models/weights.bin"
  = Some (Demo.bytes "WEIGHTS").
Proof.
  rewrite (@pull_touches_the_files_of_the_plan_only Demo.with_key
             (Demo.client Demo.with_key) "acme/resnet:v2" None Demo.start
             "/models/weights.bin").
  - reflexivity.
  - intros ref plan s0 f Hparse Hplan Hf.
    injection Hparse as <-. vm_compute in Hplan. injection Hplan as <- _.
    apply list_elem_of_In in Hf. simpl in Hf.
    destruct Hf as [<-|[<-|[<-|[]]]]; vm_compute; discriminate.
Defined.

Lemma push_stops_at_a_missing_file_witness :
  ("/models/missing.bin"
   ∈ ["/models/weights.bin"; "/models/missing.bin"; "/models/config.json"]) ∧
  disk Demo.start !! "/models/missing.bin" = None ∧
  ∃ q es,
    disk Demo.start !! q = None ∧
    @push Demo.with_key (Demo.client Demo.with_key) "acme/resnet:v3"
      ["/models/weights.bin"; "/models/missing.bin"; "/models/config.json"]
      None None None Demo.start
    = (Err (IoError q), after Demo.start es).
Proof.
  assert ("/models/missing.bin"
          ∈ ["/models/weights.bin"; "/models/missing.bin"; "/models/config.json"])
    as Hin by (apply list_elem_of_further, list_elem_of_here).
  split; [exact Hin|]. split; [reflexivity|].
  destruct (@push_stops_at_a_missing_file Demo.with_key (Demo.client Demo.with_key)
              "acme/resnet:v3"
              ["/models/weights.bin"; "/models/missing.bin"; "/models/config.json"]
              None None None Demo.start Demo.ref_v3 "/models/missing.bin"
              eq_refl eq_refl Hin eq_refl) as (q & es & _ & Hq & Hrun & _).
  by exists q, es.
Defined.

Lemma push_without_key_reads_first_witness :
  truthy (apiKey (Demo.client Demo.without_key)) = false ∧
  @push Demo.without_key (Demo.client Demo.without_key) "acme/resnet:v3" Demo.files
    None None None Demo.start
  = (Err AuthenticationRequired, after Demo.start (read_events Demo.files)).
Proof.
  split; [reflexivity|].
  exact (@push_without_key_reads_first Demo.without_key (Demo.client Demo.without_key)
           "acme/resnet:v3" Demo.files None None None Demo.start Demo.ref_v3 Demo.infos
           eq_refl eq_refl eq_refl eq_refl).
Defined.

Lemma push_stops_when_init_is_refused_witness :
  ok Demo2.refusal = false ∧
  (@push Demo2.platform Demo2.client "acme/locked:v1" Demo.files
     None None None Demo.start).1
  = Err (RequestFailed 403 "read-only organisation").
Proof.
  split; [reflexivity|].
  rewrite (@push_stops_when_init_is_refused Demo2.platform Demo2.client
             "acme/locked:v1" Demo.files None None None Demo.start Demo2.locked_v1
             Demo.infos Demo2.refusal eq_refl eq_refl eq_refl eq_refl eq_refl eq_refl).
  reflexivity.
Defined.



Lemma update_sends_the_supplied_fields_witness :
  org_and_name "acme/resnet" = Ok ("acme", "resnet") ∧
  update (Demo.client Demo.with_key) Demo.updateModel "acme/resnet"
    (Some EmptyString) None None None None Demo.start
  = (Ok {| text := "Updated acme/resnet: updated" |}, Demo.start).
Proof.
  split; [reflexivity|].
  destruct (proj2 (@update_sends_the_supplied_fields Demo.with_key
              (Demo.client Demo.with_key) Demo.updateModel "acme/resnet"
              (Some EmptyString) None None None None Demo.start)
              "acme" "resnet" eq_refl (or_introl (ex_intro _ EmptyString eq_refl)))
    as (body & _ & _ & _ & _ & _ & _ & Hrun).
  rewrite Hrun. reflexivity.
Defined.

Lemma tags_sends_one_request_witness :
  org_and_name "acme/resnet" = Ok ("acme", "resnet") ∧
  @tags Demo2.platform Demo2.client "acme/resnet" Demo.start
  = (Ok {| text := "No tags found for acme/resnet." |},
     after Demo.start [request_event Demo2.client "/v1/models/acme/resnet/tags" None]).
Proof.
  split; [reflexivity|].
  exact (proj2 (proj2 (@tags_sends_one_request Demo2.platform Demo2.client
                         "acme/resnet" Demo.start) "acme" "resnet" eq_refl)
           (Demo.ok_answer (JTags [])) eq_refl eq_refl eq_refl).
Defined.

Lemma inspect_sends_one_request_witness :
  parseModelRef "acme" = Err (InvalidModelRef "acme") ∧
  @inspect Demo.with_key (Demo.client Demo.with_key) Demo2.stringify "acme" Demo.start
  = (Err (InvalidModelRef "acme"), Demo.start).
Proof.
  split; [reflexivity|].
  exact (proj1 (@inspect_sends_one_request Demo.with_key (Demo.client Demo.with_key)
                  Demo2.stringify "acme" Demo.start) _ eq_refl).
Defined.

Lemma formatBytes_rounds_to_nearest_witness :
  (1536 < 2 ^ 53)%N ∧ (1024 ≤ 1536 < 1024 * 1024)%N ∧
  ∃ n : N,
    (2048 * n ≤ 20 * 1536 + 1024 < 2048 * (n + 1))%N ∧ (10 ≤ n ≤ 10240)%N ∧
    Format.formatBytes 1536
    = pretty (n / 10)%N +:+ "." +:+ pretty (n mod 10)%N +:+ " KB".
Proof.
  assert (1536 < 2 ^ 53)%N as Hsafe by (vm_compute; reflexivity).
  assert (1024 ≤ 1536 < 1024 * 1024)%N as Hrange by lia.
  split; [exact Hsafe|]. split; [exact Hrange|].
  exact (proj1 (proj2 (formatBytes_rounds_to_nearest 1536 Hsafe)) Hrange).
Defined.

Lemma formatBytes_shows_1024_below_a_boundary_witness :
  (1048525 ≤ 1048575 < 1048576)%N ∧ Format.formatBytes 1048575 = "1024.0 KB".
Proof.
  assert (1048525 ≤ 1048575 < 1048576)%N as Hrange by lia.
  split; [exact Hrange|].
  exact (proj1 (formatBytes_shows_1024_below_a_boundary 1048575) Hrange).
Defined.
